(** * ChatToMusic backend: the job-completion notification core

    A shallow embedding of [backend/src/index.ts]: the two in-memory maps
    ([resultsStore], [subscribers]), [pushSSE], and the three handlers
    [GET /events], [POST /suno/callback] and [GET /status], followed by the
    properties of the notification core.  After them come the other routes
    of the backend ([POST /api/chat], [POST /generate-from-emotion], the
    start-up checks) and the client side of the wait ([App.tsx]: the
    [complete] listener, [fallbackPoll], [handleChatSubmit]). *)

From stdpp Require Import gmap strings list fin_maps.
From Stdlib Require Import ZArith Ascii.

Local Open Scope string_scope.
Local Open Scope list_scope.

(** ** Values

    Request bodies and collaborator answers are parsed JSON, typed [any] in
    the source.  [JUndefined] is what a missing property or [clips[0]] of an
    empty array evaluates to.  The handlers look at a number only to decide
    whether it is truthy, so an integer stands for it. *)

#[local] Set Warnings "-register-all".
Inductive JsVal : Type :=
| JUndefined
| JNull
| JBool (b : bool)
| JNum (n : Z)
| JStr (s : string)
| JArr (items : list JsVal)
| JObj (fields : list (string * JsVal)).

(** [!v] is [negb (truthy v)]. *)
Definition truthy (v : JsVal) : bool :=
  match v with
  | JUndefined | JNull => false
  | JBool b => b
  | JNum n => negb (n =? 0)%Z
  | JStr s => negb (String.eqb s "")
  | JArr _ | JObj _ => true
  end.

Definition nullish (v : JsVal) : bool :=
  match v with
  | JUndefined | JNull => true
  | _ => false
  end.

Fixpoint field (k : string) (fs : list (string * JsVal)) : JsVal :=
  match fs with
  | [] => JUndefined
  | (k', v) :: fs' => if String.eqb k k' then v else field k fs'
  end.

(** [v.k] for the property names the handlers use ([data], [task_id],
    [status], [id], [clipId], [clips]): a TypeError ([None]) on [undefined]
    and [null], the field of an object, [undefined] on anything else. *)
Definition member (v : JsVal) (k : string) : option JsVal :=
  match v with
  | JUndefined | JNull => None
  | JObj fs => Some (field k fs)
  | _ => Some JUndefined
  end.

(** [v?.k] *)
Definition opt_member (v : JsVal) (k : string) : JsVal :=
  match member v k with
  | Some x => x
  | None => JUndefined
  end.

(** [clips[0]] *)
Definition first_item (clips : list JsVal) : JsVal :=
  match clips with
  | [] => JUndefined
  | c :: _ => c
  end.

(** ** Query parameters: [raw.split(',').map(i => i.trim()).filter(Boolean)] *)

Fixpoint split_on (sep : ascii) (s : string) : list string :=
  match s with
  | EmptyString => [EmptyString]
  | String c rest =>
      if Ascii.eqb c sep then EmptyString :: split_on sep rest
      else match split_on sep rest with
           | hd :: tl => String c hd :: tl
           | [] => [String c EmptyString]
           end
  end.

(** White space of [String.prototype.trim] within ASCII. *)
Definition is_ws (c : ascii) : bool :=
  let n := nat_of_ascii c in
  (Nat.leb 9 n && Nat.leb n 13) || Nat.eqb n 32.

Fixpoint trim_start (s : string) : string :=
  match s with
  | String c rest => if is_ws c then trim_start rest else s
  | EmptyString => EmptyString
  end.

Fixpoint trim_end (s : string) : string :=
  match s with
  | EmptyString => EmptyString
  | String c rest =>
      match trim_end rest with
      | EmptyString => if is_ws c then EmptyString else String c EmptyString
      | rest' => String c rest'
      end
  end.

Definition trim (s : string) : string := trim_end (trim_start s).

Definition nonempty (s : string) : bool := negb (String.eqb s "").

(** [(req.query.x as string) || ''], split, trimmed, empty pieces dropped. *)
Definition parse_ids (q : option string) : list string :=
  List.filter nonempty (List.map trim (split_on "," (default "" q))).

(** ** Server state *)

(** A [Response] object is known by its identity. *)
Definition conn := nat.

(** One [res.write] of an SSE frame
    [event: <event>\ndata: <JSON.stringify(data)>\n\n]. *)
Record Frame := { event : string; data : JsVal }.

Record Server := {
  (** [resultsStore]: entries under string keys, the only ones [has]/[get]
      are ever asked for (every lookup key is split from a query string). *)
  resultsStore : gmap string JsVal;
  (** [resultsStore.set] calls whose key was not a string, oldest first;
      no handler can read them back. *)
  strayResults : list (JsVal * JsVal);
  (** [subscribers]: clip id to the array of attached responses. *)
  subscribers : gmap string (list conn);
  (** The frames written to each response so far, oldest first. *)
  wire : gmap conn (list Frame);
  (** Responses on which [res.write] throws. *)
  broken : gset conn
}.

Definition initial : Server :=
  {| resultsStore := ∅; strayResults := []; subscribers := ∅;
     wire := ∅; broken := ∅ |}.

Definition delivered (st : Server) (c : conn) : list Frame :=
  default [] (wire st !! c).

Definition with_results (f : gmap string JsVal -> gmap string JsVal)
    (st : Server) : Server :=
  {| resultsStore := f (resultsStore st); strayResults := strayResults st;
     subscribers := subscribers st; wire := wire st; broken := broken st |}.

Definition with_stray (kv : JsVal * JsVal) (st : Server) : Server :=
  {| resultsStore := resultsStore st;
     strayResults := strayResults st ++ [kv];
     subscribers := subscribers st; wire := wire st; broken := broken st |}.

Definition with_subscribers
    (f : gmap string (list conn) -> gmap string (list conn))
    (st : Server) : Server :=
  {| resultsStore := resultsStore st; strayResults := strayResults st;
     subscribers := f (subscribers st); wire := wire st;
     broken := broken st |}.

Definition with_wire (f : gmap conn (list Frame) -> gmap conn (list Frame))
    (st : Server) : Server :=
  {| resultsStore := resultsStore st; strayResults := strayResults st;
     subscribers := subscribers st; wire := f (wire st);
     broken := broken st |}.

Definition with_broken (f : gset conn -> gset conn) (st : Server) : Server :=
  {| resultsStore := resultsStore st; strayResults := strayResults st;
     subscribers := subscribers st; wire := wire st;
     broken := f (broken st) |}.

(** ** Effects: state, and exceptions that a [try] can catch *)

Inductive result (A : Type) : Type :=
| Ret (a : A)
| Exn.
Arguments Ret {A} a.
Arguments Exn {A}.

Definition Eff (S A : Type) : Type := S -> S * result A.

Definition ret {S A} (a : A) : Eff S A := fun s => (s, Ret a).

Definition bind {S A B} (m : Eff S A) (k : A -> Eff S B) : Eff S B :=
  fun s =>
    match m s with
    | (s', Ret a) => k a s'
    | (s', Exn) => (s', Exn)
    end.

Declare Scope eff_scope.
Delimit Scope eff_scope with eff.
Notation "'let*' x ':=' m 'in' k" := (bind m (fun x => k))
  (at level 10, x pattern, m at level 100, k at level 200) : eff_scope.
Notation "m ';;;' k" := (bind m (fun _ => k))
  (at level 100, k at level 200, right associativity) : eff_scope.
Local Open Scope eff_scope.

Definition gets {S A} (f : S -> A) : Eff S A := fun s => (s, Ret (f s)).
Definition modify {S} (f : S -> S) : Eff S unit := fun s => (f s, Ret tt).
Definition throw {S A} : Eff S A := fun s => (s, Exn).

(** A property access that may raise. *)
Definition access {S} (o : option JsVal) : Eff S JsVal :=
  match o with
  | Some v => ret v
  | None => throw
  end.

(** [try { m } catch (_) { }] *)
Definition try_ {S} (m : Eff S unit) : Eff S unit :=
  fun s => (fst (m s), Ret tt).

(** [xs.forEach(f)] *)
Fixpoint forEach {S A} (f : A -> Eff S unit) (xs : list A) : Eff S unit :=
  match xs with
  | [] => ret tt
  | x :: xs' => f x ;;; forEach f xs'
  end.

(** ** The two maps and the responses *)

(** [resultsStore.set(id, v)] *)
Definition store_set (id : JsVal) (v : JsVal) : Eff Server unit :=
  match id with
  | JStr k => modify (with_results (insert k v))
  | _ => modify (with_stray (id, v))
  end.

(** [subscribers.get(id)]: all keys of [subscribers] are strings. *)
Definition subs_get (id : JsVal) (st : Server) : option (list conn) :=
  match id with
  | JStr k => subscribers st !! k
  | _ => None
  end.

(** [subscribers.delete(id)] *)
Definition subs_delete (id : JsVal) : Eff Server unit :=
  match id with
  | JStr k => modify (with_subscribers (delete k))
  | _ => ret tt
  end.

(** [res.write(payload)] *)
Definition res_write (res : conn) (f : Frame) : Eff Server unit :=
  fun st =>
    if decide (res ∈ broken st) then (st, Exn)
    else (with_wire (insert res (delivered st res ++ [f])) st, Ret tt).

(** [try { res.write(payload); } catch (_) { }] *)
Definition try_write (payload : Frame) (res : conn) : Eff Server unit :=
  try_ (res_write res payload).

(** ** [pushSSE] *)
Definition pushSSE (clipId : JsVal) (ev : string) (d : JsVal)
    : Eff Server unit :=
  let* subs := gets (subs_get clipId) in
  match subs with
  | None => ret tt
  | Some subs =>
      let payload := {| event := ev; data := d |} in
      forEach (try_write payload) subs ;;;
      if String.eqb ev "complete" then subs_delete clipId else ret tt
  end.

(** ** Replies *)

Inductive Reply : Type :=
| SendText (code : nat) (body : string)   (** [res.status(code).send(body)] *)
| SendJson (code : nat) (body : JsVal)    (** [res.status(code).json(body)] *)
| StreamOpen                              (** headers flushed, stream kept open *)
| NoReply                                 (** the handler returned, nothing sent *)
| Uncaught.                               (** an exception left the handler *)

Definition run {S} (m : Eff S Reply) (s : S) : S * Reply :=
  match m s with
  | (s', Ret r) => (s', r)
  | (s', Exn) => (s', Uncaught)
  end.

(** ** [GET /events] *)

(** The body of [clipIds.forEach] at attach time. *)
Definition attach (res : conn) (id : string) : Eff Server unit :=
  let* hit := gets (fun st => resultsStore st !! id) in
  match hit with
  | Some rec => res_write res {| event := "complete"; data := rec |}
  | None =>
      modify (fun st =>
        let arr := default [] (subscribers st !! id) in
        with_subscribers (insert id (arr ++ [res])) st)
  end.

Definition events_handler (q : option string) (res : conn)
    : Eff Server Reply :=
  let clipIds := parse_ids q in
  if Nat.eqb (length clipIds) 0
  then ret (SendText 400 "clipIds query param required")
  else forEach (attach res) clipIds ;;; ret StreamOpen.

Definition events (q : option string) (res : conn) (st : Server)
    : Server * Reply :=
  run (events_handler q res) st.

(** The body of [clipIds.forEach] in the [close] listener. *)
Definition detach (res : conn) (id : string) : Eff Server unit :=
  let* arr := gets (fun st => subscribers st !! id) in
  match arr with
  | None => ret tt
  | Some arr =>
      let filtered := filter (fun r => r ≠ res) arr in
      if Nat.ltb 0 (length filtered)
      then modify (with_subscribers (insert id filtered))
      else modify (with_subscribers (delete id))
  end.

(** [req.on('close', ...)] of the request that [events q res] served. *)
Definition on_close (q : option string) (res : conn) (st : Server) : Server :=
  fst (forEach (detach res) (parse_ids q) st).

(** ** [POST /suno/callback] *)

(** [{ data: { data: [clips] } }] *)
Definition callback_push (clips : list JsVal) : JsVal :=
  JObj [("data", JObj [("data", JArr [JArr clips])])].

(** [payload?.data.task_id || payload?.task_id] *)
Definition callback_id (payload : JsVal) : option JsVal :=
  if nullish payload then Some JUndefined
  else
    match member (opt_member payload "data") "task_id" with
    | None => None
    | Some a => if truthy a then Some a else Some (opt_member payload "task_id")
    end.

(** [payload?.data?.data] *)
Definition clips_of (payload : JsVal) : JsVal :=
  opt_member (opt_member payload "data") "data".

Definition callback_handler (payload : JsVal) : Eff Server Reply :=
  match clips_of payload with
  | JArr clips =>
      let* id := access (callback_id payload) in
      if negb (truthy id) then ret NoReply
      else
        store_set id (first_item clips) ;;;
        pushSSE id "complete" (callback_push clips) ;;;
        ret (SendText 200 "OK")
  | _ => ret (SendText 400 "Invalid callback")
  end.

Definition callback (payload : JsVal) (st : Server) : Server * Reply :=
  run (callback_handler payload) st.

(** ** [GET /status] *)

(** What [axios.get] settles to: a rejection, or a response with [r.data]. *)
Inductive AxiosResult : Type :=
| AxiosRejected
| AxiosResolved (r_data : JsVal).

(** [ids.forEach]: the local partition into [found] and [pending]. *)
Definition partition_step (store : gmap string JsVal)
    (acc : list JsVal * list string) (id : string)
    : list JsVal * list string :=
  match store !! id with
  | Some rec => (acc.1 ++ [rec], acc.2)
  | None => (acc.1, acc.2 ++ [id])
  end.

Definition partition_ids (store : gmap string JsVal) (ids : list string)
    : list JsVal * list string :=
  foldl (partition_step store) ([], []) ids.

(** The handler's local [found] array travels next to the server state. *)
Definition on_server {L A} (m : Eff Server A) : Eff (Server * L) A :=
  fun s => let '(st', r) := m s.1 in ((st', s.2), r).

Definition found_push (v : JsVal) : Eff (Server * list JsVal) unit :=
  modify (fun s => (s.1, s.2 ++ [v])).

(** [v === 'complete'] *)
Definition is_complete (v : JsVal) : bool :=
  match v with
  | JStr s => String.eqb s "complete"
  | _ => false
  end.

(** [clip.id || clip.clipId] *)
Definition clip_id (clip : JsVal) : option JsVal :=
  match member clip "id" with
  | None => None
  | Some a => if truthy a then Some a else member clip "clipId"
  end.

(** The body of [list.forEach]. *)
Definition backfill (clip : JsVal) : Eff (Server * list JsVal) unit :=
  let* status := access (member clip "status") in
  if is_complete status then
    let* id := access (clip_id clip) in
    if negb (truthy id) then ret tt
    else
      on_server (store_set id clip) ;;;
      found_push clip ;;;
      on_server (pushSSE id "complete" clip)
  else ret tt.

(** [Array.isArray(r.data) ? r.data : r.data.clips || []], as the array that
    [list.forEach] then needs. *)
Definition clip_list (r_data : JsVal) : option (list JsVal) :=
  match r_data with
  | JArr l => Some l
  | _ =>
      match member r_data "clips" with
      | None => None
      | Some c =>
          if truthy c
          then match c with JArr l => Some l | _ => None end
          else Some []
      end
  end.

(** The [try] block. *)
Definition status_query (api : AxiosResult)
    : Eff (Server * list JsVal) unit :=
  match api with
  | AxiosRejected => throw
  | AxiosResolved r_data =>
      match clip_list r_data with
      | None => throw
      | Some l => forEach backfill l
      end
  end.

Definition status_body (found : list JsVal) (pending : list string) : JsVal :=
  JObj [("found", JArr found); ("pending", JArr (JStr <$> pending))].

(** Up to the [await]: either a reply at once, or the local partition. *)
Definition status_begin (q : option string) (st : Server)
    : Reply + list JsVal * list string :=
  let ids := parse_ids q in
  if Nat.eqb (List.length ids) 0
  then inl (SendJson 400 (JObj [("error", JStr "ids query required")]))
  else inr (partition_ids (resultsStore st) ids).

(** From the [await] on, in the state the server has by then. *)
Definition status_end (found : list JsVal) (pending : list string)
    (api : AxiosResult) (st : Server) : Server * list JsVal :=
  if Nat.ltb 0 (List.length pending)
  then (try_ (status_query api) (st, found)).1
  else (st, found).

(** The whole request when nothing else runs during the [await]. *)
Definition status (q : option string) (api : AxiosResult) (st : Server)
    : Server * Reply :=
  match status_begin q st with
  | inl r => (st, r)
  | inr (found, pending) =>
      let '(st', found') := status_end found pending api st in
      (st', SendJson 200 (status_body found' pending))
  end.

(** ** Runs of the server *)

Inductive Step : Type :=
| DoEvents (q : option string) (res : conn)
| DoClose (q : option string) (res : conn)
| DoCallback (payload : JsVal)
| DoStatus (q : option string) (api : AxiosResult)
| DoStatusEnd (found : list JsVal) (pending : list string) (api : AxiosResult)
| DoBreak (c : conn).

Definition step (a : Step) (st : Server) : Server :=
  match a with
  | DoEvents q res => (events q res st).1
  | DoClose q res => on_close q res st
  | DoCallback payload => (callback payload st).1
  | DoStatus q api => (status q api st).1
  | DoStatusEnd found pending api => (status_end found pending api st).1
  | DoBreak c => with_broken (union {[c]}) st
  end.

Inductive reachable : Server -> Prop :=
| reach_initial : reachable initial
| reach_step a st : reachable st -> reachable (step a st).

(** * Vocabulary of the properties *)

(** How often a response sits in a subscriber array. *)
Definition registrations (c : conn) (subs : list conn) : nat :=
  count_occ Nat.eq_dec subs c.

(** What [pushSSE] leaves in [subscribers]. *)
Definition retire (id : JsVal) (ev : string)
    (m : gmap string (list conn)) : gmap string (list conn) :=
  match id with
  | JStr k => if String.eqb ev "complete" then delete k m else m
  | _ => m
  end.

(** [resultsStore.has(id)] *)
Definition resolved (store : gmap string JsVal) (id : string) : bool :=
  match store !! id with
  | Some _ => true
  | None => false
  end.

(** The records of the ids that are in the store, in request order and with
    repetitions. *)
Definition known_records (store : gmap string JsVal) (ids : list string)
    : list JsVal :=
  omap (fun id => store !! id) ids.

(** The ids that are not in the store, in request order and with repetitions. *)
Definition unresolved (store : gmap string JsVal) (ids : list string)
    : list string :=
  List.filter (fun id => negb (resolved store id)) ids.

(** How often an id is named in a request. *)
Definition times (id : string) (ids : list string) : nat :=
  count_occ String.string_dec ids id.

(** The frame of a [complete] event. *)
Definition complete_frame (rec : JsVal) : Frame :=
  {| event := "complete"; data := rec |}.

(** A subscriber array after [res] has been pushed [n] times. *)
Definition enrol (res : conn) (n : nat) (old : option (list conn))
    : option (list conn) :=
  match n with
  | 0 => old
  | S _ => Some (default [] old ++ replicate n res)
  end.

(** A subscriber array without [res]; no array at all once it is empty. *)
Definition prune (res : conn) (old : option (list conn))
    : option (list conn) :=
  match old with
  | None => None
  | Some arr =>
      match filter (fun r => r ≠ res) arr with
      | [] => None
      | filtered => Some filtered
      end
  end.

(** No key of the registry is bound to an empty array. *)
Definition no_empty_set (m : gmap string (list conn)) : Prop :=
  forall id arr, m !! id = Some arr -> arr <> [].

Definition tidy (st : Server) : Prop := no_empty_set (subscribers st).

(** A clip the collaborator reports complete under a usable id. *)
Definition reported (clip : JsVal) : bool :=
  match member clip "status", clip_id clip with
  | Some s, Some id => is_complete s && truthy id
  | _, _ => false
  end.

(** The clips the loop gets to before [clip.status] raises on a [null]. *)
Fixpoint heard (l : list JsVal) : list JsVal :=
  match l with
  | [] => []
  | clip :: l' => if nullish clip then [] else clip :: heard l'
  end.

(** What one request can add to [found]. *)
Definition newly_found (api : AxiosResult) : list JsVal :=
  match api with
  | AxiosRejected => []
  | AxiosResolved r_data =>
      match clip_list r_data with
      | None => []
      | Some l => List.filter reported (heard l)
      end
  end.

(** ** Sample inputs *)

Definition song : JsVal :=
  JObj [("id", JStr "c1"); ("title", JStr "Song");
        ("stream_audio_url", JStr "http://x/y")].

Definition webhook (task_id : JsVal) (clips : JsVal) : JsVal :=
  JObj [("data", JObj [("task_id", task_id); ("data", clips)])].

Definition clip_of (id : string) (title : string) : JsVal :=
  JObj [("id", JStr id); ("status", JStr "complete"); ("title", JStr title)].

(** The server after one webhook has resolved ["j"] with the clip ["first"]. *)
Definition resolved_j : Server :=
  (callback (webhook (JStr "j") (JArr [JStr "first"])) initial).1.

(** The server after one webhook has resolved ["a"]. *)
Definition resolved_a : Server :=
  (callback (webhook (JStr "a") (JArr [clip_of "a" "A"])) initial).1.

(** Three listeners on ["j"], the middle one broken. *)
Definition middle_broken : Server :=
  step (DoBreak 2)
    (events (Some "j") 3
       (events (Some "j") 2 (events (Some "j") 1 initial).1).1).1.

(** ** Vocabulary for the query strings and for runs *)





(** The steps of a run, oldest first. *)
Definition run_steps (l : list Step) (st : Server) : Server :=
  foldl (fun s a => step a s) st l.

(** * The other routes of the backend *)

(** These routes and the client read further properties with [member]:
    [message], [messages], [make_instrumental], [sender], [text], [taskId],
    [title], [stream_audio_url], [found], [reply] and the audio keys.  None
    of them is a property of a built-in prototype, so [member] is what
    [v.k] evaluates to for them as well. *)

(** ** Start-up: the environment checks before [app.listen] *)

Record Env := {
  env_PORT : option string;
  env_SUNO_API_KEY : option string;
  env_GEMINI_API_KEY : option string;
  env_PUBLIC_BASE_URL : option string
}.

Record Config := {
  port : string + nat;
  suno_api_key : string;
  gemini_api_key : string;
  public_base_url : string
}.

Inductive Boot : Type :=
| Exited (code : nat)            (** [process.exit(code)] *)
| Threw (message : string)       (** [throw new Error(message)] at top level *)
| Listening (cfg : Config).      (** [app.listen(port)] reached *)

(** [!process.env.X] is false. *)
Definition present (o : option string) : bool :=
  match o with
  | Some s => nonempty s
  | None => false
  end.

Definition boot (env : Env) : Boot :=
  (* [process.env.PORT || 3001] *)
  let p := if present (env_PORT env) then inl (default "" (env_PORT env))
           else inr 3001 in
  if negb (present (env_GEMINI_API_KEY env)) then Exited 1
  else if negb (present (env_SUNO_API_KEY env))
  then Threw "SUNO_API_KEY not found in .env"
  else if negb (present (env_PUBLIC_BASE_URL env))
  then Threw "PUBLIC_BASE_URL not found in .env (your ngrok https URL)"
  else Listening {| port := p;
                    suno_api_key := default "" (env_SUNO_API_KEY env);
                    gemini_api_key := default "" (env_GEMINI_API_KEY env);
                    public_base_url := default "" (env_PUBLIC_BASE_URL env) |}.

(** ** Outbound calls *)

(** What [geminiModel.generateContent] is asked: the theme prompt built
    around the conversation text of [messages], or a chat message as is. *)
Inductive GeminiPrompt : Type :=
| ThemeOf (messages : list JsVal)
| ChatWith (message : JsVal).

Inductive Call : Type :=
| AskGemini (p : GeminiPrompt)
| PostSuno (url : string) (body : JsVal) (bearer : string).

(** What [generateContent], [result.response] and [response.text()] come
    to: a text, or a failure somewhere on the way. *)
Inductive GeminiResult : Type :=
| GeminiFailed
| GeminiText (text : string).

(** [try { m } catch (_) { h }] *)
Definition catch {S A} (m h : Eff S A) : Eff S A :=
  fun s =>
    match m s with
    | (s', Exn) => h s'
    | r => r
    end.

Definition generate_text (p : GeminiPrompt) (g : GeminiResult)
    : Eff (list Call) string :=
  fun log =>
    (log ++ [AskGemini p],
     match g with
     | GeminiText t => Ret t
     | GeminiFailed => Exn
     end).

(** [await axios.post(url, body, { headers: { Authorization: `Bearer ${key}` } })],
    then [r.data]. *)
Definition axios_post (url : string) (body : JsVal) (key : string)
    (answer : AxiosResult) : Eff (list Call) JsVal :=
  fun log =>
    (log ++ [PostSuno url body key],
     match answer with
     | AxiosResolved r_data => Ret r_data
     | AxiosRejected => Exn
     end).

(** ** Values inside template strings *)

Fixpoint has_key (k : string) (fs : list (string * JsVal)) : bool :=
  match fs with
  | [] => false
  | (k', _) :: fs' => String.eqb k k' || has_key k fs'
  end.

(** Whether [`${v}`] yields a string.  A parsed object with an own
    [toString] entry has nothing callable to convert it, and the conversion
    raises; an array is joined, converting its items. *)
Fixpoint printable (v : JsVal) : bool :=
  match v with
  | JArr items => forallb printable items
  | JObj fs => negb (has_key "toString" fs)
  | _ => true
  end.

(** The conversion of [v] inside a template string, for its effect. *)
Definition to_text {S} (v : JsVal) : Eff S unit :=
  if printable v then ret tt else throw.

(** ** [POST /api/chat] *)

Definition json_error (code : nat) (message : string) : Reply :=
  SendJson code (JObj [("error", JStr message)]).

Definition chat_handler (body : JsVal) (g : GeminiResult)
    : Eff (list Call) Reply :=
  catch
    (let* message := access (member body "message") in
     if negb (truthy message)
     then ret (json_error 400 "Message is required.")
     else
       (* [console.log(`[+] Received chat message: "${message}"`)] *)
       to_text message ;;;
       let* text := generate_text (ChatWith message) g in
       ret (SendJson 200 (JObj [("reply", JStr text)])))
    (ret (json_error 500
            "An internal server error occurred with the chat service.")).

(** The outbound calls made, oldest first, and the reply. *)
Definition chat (body : JsVal) (g : GeminiResult) : list Call * Reply :=
  run (chat_handler body g) [].

(** ** [analyzeConversationForPrompt] *)

(** [`${m.sender}: ${m.text}`], for its effect. *)
Definition conversation_line (m : JsVal) : Eff (list Call) unit :=
  let* sender := access (member m "sender") in
  to_text sender ;;;
  let* text := access (member m "text") in
  to_text text.

Definition analyzeConversationForPrompt (messages : list JsVal)
    (g : GeminiResult) : Eff (list Call) string :=
  forEach conversation_line messages ;;;
  generate_text (ThemeOf messages) g.

(** ** [POST /generate-from-emotion] *)

(** [s.replace(/\/$/, '')] *)
Fixpoint strip_slash (s : string) : string :=
  match s with
  | EmptyString => EmptyString
  | String c EmptyString => if Ascii.eqb c "/" then EmptyString else s
  | String c rest => String c (strip_slash rest)
  end.

Definition callback_url (base : string) : string :=
  String.append (strip_slash base) "/suno/callback".

Definition generate_url : string := "https://api.sunoapi.org/api/v1/generate".

Definition generate_request (prompt : string) (make_instrumental : JsVal)
    (callbackUrl : string) : JsVal :=
  JObj [("prompt", JStr prompt);
        ("instrumental", JBool (truthy make_instrumental));
        ("model", JStr "V5");
        ("customMode", JBool false);
        ("wait_audio", JBool false);
        ("callbackUrl", JStr callbackUrl)].

(** [r?.data?.data?.taskId || r?.data?.taskId] *)
Definition suno_task_id (r_data : JsVal) : JsVal :=
  let nested := opt_member (opt_member r_data "data") "taskId" in
  if truthy nested then nested else opt_member r_data "taskId".

Definition generate_handler (cfg : Config) (body : JsVal)
    (g : GeminiResult) (suno : AxiosResult) : Eff (list Call) Reply :=
  let* messages := access (member body "messages") in
  let* make_instrumental := access (member body "make_instrumental") in
  match messages with
  | JArr messages =>
      let* prompt := analyzeConversationForPrompt messages g in
      catch
        (let callbackUrl := callback_url (public_base_url cfg) in
         let* r_data :=
           axios_post generate_url
             (generate_request prompt make_instrumental callbackUrl)
             (suno_api_key cfg) suno in
         let clipIds := suno_task_id r_data in
         if negb (truthy clipIds)
         then ret (json_error 500 "No taskId returned from Suno")
         else ret (SendJson 200
                     (JObj [("clipIds", JArr [clipIds]);
                            ("prompt", JStr prompt)])))
        (ret (json_error 500 "Failed to start suno generation"))
  | _ => ret (json_error 400 "Messages must be array")
  end.

Definition generate (cfg : Config) (body : JsVal) (g : GeminiResult)
    (suno : AxiosResult) : list Call * Reply :=
  run (generate_handler cfg body g suno) [].

(** ** Vocabulary for these routes *)

(** A message entry whose line can be built. *)
Definition line_ok (m : JsVal) : bool :=
  negb (nullish m) &&
  printable (opt_member m "sender") && printable (opt_member m "text").

Fixpoint ends_with_slash (s : string) : bool :=
  match s with
  | EmptyString => false
  | String c EmptyString => Ascii.eqb c "/"
  | String _ rest => ends_with_slash rest
  end.

(** What [generate] comes to, case by case. *)
Definition generate_outcome (cfg : Config) (body : JsVal) (g : GeminiResult)
    (suno : AxiosResult) : list Call * Reply :=
  match member body "messages" with
  | None => ([], Uncaught)
  | Some (JArr ms) =>
      if forallb line_ok ms then
        match g with
        | GeminiFailed => ([AskGemini (ThemeOf ms)], Uncaught)
        | GeminiText t =>
            let calls :=
              [AskGemini (ThemeOf ms);
               PostSuno generate_url
                 (generate_request t (opt_member body "make_instrumental")
                    (callback_url (public_base_url cfg)))
                 (suno_api_key cfg)] in
            match suno with
            | AxiosRejected =>
                (calls, json_error 500 "Failed to start suno generation")
            | AxiosResolved r =>
                if truthy (suno_task_id r)
                then (calls,
                      SendJson 200
                        (JObj [("clipIds", JArr [suno_task_id r]);
                               ("prompt", JStr t)]))
                else (calls, json_error 500 "No taskId returned from Suno")
            end
        end
      else ([], Uncaught)
  | Some _ => ([], json_error 400 "Messages must be array")
  end.

(** What [chat] comes to, case by case. *)
Definition chat_outcome (body : JsVal) (g : GeminiResult) : list Call * Reply :=
  let failed :=
    json_error 500 "An internal server error occurred with the chat service." in
  match member body "message" with
  | None => ([], failed)
  | Some m =>
      if negb (truthy m) then ([], json_error 400 "Message is required.")
      else if negb (printable m) then ([], failed)
      else
        match g with
        | GeminiFailed => ([AskGemini (ChatWith m)], failed)
        | GeminiText t =>
            ([AskGemini (ChatWith m)], SendJson 200 (JObj [("reply", JStr t)]))
        end
  end.

(** ** Sample inputs for these routes *)

Definition sample_config : Config :=
  {| port := inr 3001; suno_api_key := "key"; gemini_api_key := "gkey";
     public_base_url := "https://example.ngrok.app/" |}.

Definition sample_chat : JsVal :=
  JObj [("messages",
         JArr [JObj [("text", JStr "hello"); ("sender", JStr "user")];
               JObj [("text", JStr "hi there"); ("sender", JStr "bot")]]);
        ("make_instrumental", JBool true)].

Definition sample_started : AxiosResult :=
  AxiosResolved
    (JObj [("code", JNum 200); ("data", JObj [("taskId", JStr "abc123")])]).

(** * The client: waiting for the song ([App.tsx]) *)

(** ** Messages *)

Inductive Sender : Type := User | Bot.

(** The text of a chat message: a string (a constant of the source or the
    text typed in), a value taken from a reply, or the song line (a string
    constant of the source around [`${title}`]). *)
Inductive MessageText : Type :=
| Literal (s : string)
| TextOf (v : JsVal)         (** [text: v], a value put there as it is *)
| SongLine (title : JsVal).

(** The [audioUrl] property: absent, a value put there as it is, or
    [v + ".mp3"]. *)
Inductive AudioUrl : Type :=
| NoAudio
| AudioAt (v : JsVal)
| AudioMp3 (v : JsVal).

Record Message := {
  text : MessageText;
  sender : Sender;
  audioUrl : AudioUrl
}.

(** ** What the client holds while it waits *)

Record Client := {
  messages : list Message;
  inputValue : string;
  isChatLoading : bool;
  isGeneratingMusic : bool;
  (** the [EventSource] is not closed *)
  streamOpen : bool;
  (** [sseTimeout] is set and not cleared *)
  timerArmed : bool;
  (** [fetch] calls made to [/status] so far *)
  requests : nat;
  (** milliseconds spent in [setTimeout(r, pollInterval)] so far *)
  slept : N
}.

(** [setMessages(prev => [...prev, m])] *)
Definition show (m : Message) (c : Client) : Client :=
  {| messages := messages c ++ [m]; inputValue := inputValue c;
     isChatLoading := isChatLoading c;
     isGeneratingMusic := isGeneratingMusic c;
     streamOpen := streamOpen c; timerArmed := timerArmed c;
     requests := requests c; slept := slept c |}.

(** [setIsGeneratingMusic(false)] *)
Definition stop_generating (c : Client) : Client :=
  {| messages := messages c; inputValue := inputValue c;
     isChatLoading := isChatLoading c; isGeneratingMusic := false;
     streamOpen := streamOpen c; timerArmed := timerArmed c;
     requests := requests c; slept := slept c |}.

(** [es.close()] *)
Definition close_stream (c : Client) : Client :=
  {| messages := messages c; inputValue := inputValue c;
     isChatLoading := isChatLoading c;
     isGeneratingMusic := isGeneratingMusic c;
     streamOpen := false; timerArmed := timerArmed c;
     requests := requests c; slept := slept c |}.

(** [clearTimeout(sseTimeout)] *)
Definition clear_timer (c : Client) : Client :=
  {| messages := messages c; inputValue := inputValue c;
     isChatLoading := isChatLoading c;
     isGeneratingMusic := isGeneratingMusic c;
     streamOpen := streamOpen c; timerArmed := false;
     requests := requests c; slept := slept c |}.

Definition count_request (c : Client) : Client :=
  {| messages := messages c; inputValue := inputValue c;
     isChatLoading := isChatLoading c;
     isGeneratingMusic := isGeneratingMusic c;
     streamOpen := streamOpen c; timerArmed := timerArmed c;
     requests := S (requests c); slept := slept c |}.

Definition sleep (ms : N) (c : Client) : Client :=
  {| messages := messages c; inputValue := inputValue c;
     isChatLoading := isChatLoading c;
     isGeneratingMusic := isGeneratingMusic c;
     streamOpen := streamOpen c; timerArmed := timerArmed c;
     requests := requests c; slept := (slept c + ms)%N |}.

(** ** From [JSON.stringify] on the server to [JSON.parse] on the client *)

(** An array item as it arrives: [undefined] is written as [null]. *)
Fixpoint scrub (v : JsVal) : JsVal :=
  let fix scrub_fields (fs : list (string * JsVal)) : list (string * JsVal) :=
    match fs with
    | [] => []
    | (k, x) :: fs' =>
        match x with
        | JUndefined => scrub_fields fs'
        | _ => (k, scrub x) :: scrub_fields fs'
        end
    end in
  match v with
  | JArr items =>
      JArr (List.map (fun x => match x with
                               | JUndefined => JNull
                               | _ => scrub x
                               end) items)
  | JObj fs => JObj (scrub_fields fs)
  | _ => v
  end.

(** [JSON.parse(JSON.stringify(d))]: [JSON.stringify(undefined)] is
    [undefined], whose text does not parse; elsewhere an [undefined] array
    item becomes [null] and an [undefined] field is left out.  Strings,
    booleans, [null] and numbers (finite, as parsed from JSON) are read back
    as they were written. *)
Definition on_wire (d : JsVal) : option JsVal :=
  match d with
  | JUndefined => None
  | _ => Some (scrub d)
  end.

(** ** The [complete] listener *)

(** [v[0]] *)
Definition item0 (v : JsVal) : option JsVal :=
  match v with
  | JUndefined | JNull => None
  | JArr items => Some (first_item items)
  | JStr (String c _) => Some (JStr (String c EmptyString))
  | JObj fs => Some (field "0" fs)
  | _ => Some JUndefined
  end.

(** [clip.title || clip.id] *)
Definition title_or_id (clip : JsVal) : option JsVal :=
  match member clip "title" with
  | None => None
  | Some a => if truthy a then Some a else member clip "id"
  end.

(** [ev_data] is [JSON.parse(ev.data)], [None] when it raises. *)
Definition on_complete (ev_data : option JsVal) : Eff Client unit :=
  try_
    (modify clear_timer ;;;
     let* payload := access ev_data in
     match clips_of payload with
     | JArr (group :: _) =>
         let* clip := access (item0 group) in
         let* title := access (title_or_id clip) in
         to_text title ;;;
         let* url := access (member clip "stream_audio_url") in
         to_text url ;;;
         modify (show {| text := SongLine title; sender := Bot;
                         audioUrl := AudioMp3 url |})
     | _ => ret tt
     end) ;;;
  modify close_stream ;;;
  modify stop_generating.

(** ** [fallbackPoll] *)

(** What one [fetch] of [/status] and its [s.json()] come to. *)
Inductive Fetched : Type :=
| FetchFailed                (** [fetch] rejects *)
| NotOk                      (** [s.ok] is false *)
| BadJson                    (** [s.json()] rejects *)
| Json (body : JsVal).

(** [clip.title || clip.id || 'Generated clip'] *)
Definition poll_title (clip : JsVal) : option JsVal :=
  match title_or_id clip with
  | None => None
  | Some a => if truthy a then Some a else Some (JStr "Generated clip")
  end.

(** [clip.k1 || clip.k2 || ...] on a clip that is not [null]. *)
Fixpoint or_chain (clip : JsVal) (keys : list string) : JsVal :=
  match keys with
  | [] => JUndefined
  | [k] => opt_member clip k
  | k :: ks =>
      let a := opt_member clip k in
      if truthy a then a else or_chain clip ks
  end.

Definition audio_keys : list string :=
  ["audio_url"; "audioUrl"; "audio"; "download_url"; "file_url"; "url"].

(** The body of [json.found.forEach]. *)
Definition poll_clip (clip : JsVal) : Eff Client unit :=
  let* title := access (poll_title clip) in
  to_text title ;;;
  modify (show {| text := SongLine title; sender := Bot;
                  audioUrl := AudioAt (or_chain clip audio_keys) |}).

(** The [try] block of one turn of the loop; [true] when it returned.  For
    a [found] that is an object, either the length test fails or
    [found.forEach] is not a function: the turn ends the same way, since
    the [catch] only logs. *)
Definition poll_try (f : Fetched) : Eff Client bool :=
  match f with
  | FetchFailed | BadJson => throw
  | NotOk => ret false
  | Json json =>
      let* found := access (member json "found") in
      match found with
      | JArr (clip :: clips) =>
          forEach poll_clip (clip :: clips) ;;;
          modify stop_generating ;;;
          ret true
      | JStr s => if nonempty s then throw else ret false
      | _ => ret false
      end
  end.

Definition timeout_message : Message :=
  {| text := Literal "Generation timed out. Please try again.";
     sender := Bot; audioUrl := NoAudio |}.

(** The loop with [remaining = maxAttempts - attempts] turns to go;
    [answers i] is what the [fetch] of turn [i] comes to. *)
Fixpoint poll_loop (remaining : nat) (attempts : nat)
    (answers : nat -> Fetched) : Eff Client unit :=
  match remaining with
  | 0 =>
      modify (show timeout_message) ;;;
      modify stop_generating
  | S remaining' =>
      modify count_request ;;;
      let* returned := catch (poll_try (answers attempts)) (ret false) in
      if returned : bool then ret tt
      else
        modify (sleep 5000%N) ;;;
        poll_loop remaining' (S attempts) answers
  end.

Definition fallbackPoll (answers : nat -> Fetched) : Eff Client unit :=
  poll_loop 30 0 answers.

(** The callback of [sseTimeout]; the timer that ran it is spent. *)
Definition on_timeout (answers : nat -> Fetched) : Eff Client unit :=
  modify clear_timer ;;;
  modify close_stream ;;;
  fallbackPoll answers.

(** The browser hands a [complete] event to the listener only while the
    [EventSource] is open, and runs the timer callback only if the timer
    was not cleared. *)
Definition dispatch_complete (ev_data : option JsVal) (c : Client) : Client :=
  if streamOpen c then (on_complete ev_data c).1 else c.

Definition fire_timeout (answers : nat -> Fetched) (c : Client) : Client :=
  if timerArmed c then (on_timeout answers c).1 else c.

(** What the client's [fetch] makes of a JSON reply of the server. *)
Definition fetched_of (code : nat) (body : JsVal) : Fetched :=
  if Nat.leb 200 code && Nat.ltb code 300
  then match on_wire body with
       | Some json => Json json
       | None => BadJson
       end
  else NotOk.

(** ** [handleChatSubmit] *)






(** ** Vocabulary for the client *)

(** A clip the poll can show. *)
Definition showable (clip : JsVal) : bool :=
  match poll_title clip with
  | Some t => printable t
  | None => false
  end.

Definition poll_message (clip : JsVal) : Message :=
  {| text := SongLine (default JUndefined (poll_title clip)); sender := Bot;
     audioUrl := AudioAt (or_chain clip audio_keys) |}.

(** The clips of [found] shown before the loop over them raises. *)
Fixpoint shown_prefix (clips : list JsVal) : list JsVal :=
  match clips with
  | [] => []
  | clip :: clips' =>
      if showable clip then clip :: shown_prefix clips' else []
  end.

(** The non-empty [found] array of an answer, if it has one. *)
Definition found_clips (f : Fetched) : list JsVal :=
  match f with
  | Json json =>
      match member json "found" with
      | Some (JArr clips) => clips
      | _ => []
      end
  | _ => []
  end.

(** A turn that ends the poll: a non-empty [found], every clip showable. *)
Definition succeeds (f : Fetched) : bool :=
  match found_clips f with
  | [] => false
  | clips => forallb showable clips
  end.

(** The messages of the turns [from .. from + n - 1], none of which ends
    the poll. *)
Fixpoint stray_messages (n : nat) (from : nat) (answers : nat -> Fetched)
    : list Message :=
  match n with
  | 0 => []
  | S n' =>
      (poll_message <$> shown_prefix (found_clips (answers from))) ++
      stray_messages n' (S from) answers
  end.

(** [setMessages] once per message, oldest first. *)
Definition show_all (ms : list Message) (c : Client) : Client :=
  foldl (fun c m => show m c) c ms.

(** An item of an array as it arrives on the client. *)
Definition wire_item (x : JsVal) : JsVal :=
  match x with
  | JUndefined => JNull
  | _ => scrub x
  end.

(** The message the [complete] listener shows for a parsed payload, if it
    shows one. *)
Definition song_of (ev_data : option JsVal) : option Message :=
  match ev_data with
  | None => None
  | Some payload =>
      match clips_of payload with
      | JArr (group :: _) =>
          match item0 group with
          | None => None
          | Some clip =>
              match title_or_id clip, member clip "stream_audio_url" with
              | Some title, Some url =>
                  if printable title && printable url
                  then Some {| text := SongLine title; sender := Bot;
                               audioUrl := AudioMp3 url |}
                  else None
              | _, _ => None
              end
          end
      | _ => None
      end
  end.

(** The client right after it opened the stream and set the timer. *)
Definition waiting (ms : list Message) : Client :=
  {| messages := ms; inputValue := ""; isChatLoading := false;
     isGeneratingMusic := true; streamOpen := true;
     timerArmed := true; requests := 0; slept := 0%N |}.

(** The fields of a parsed object as they arrive on the client. *)
Definition wire_fields (fs : list (string * JsVal)) : list (string * JsVal) :=
  match scrub (JObj fs) with
  | JObj fs' => fs'
  | _ => []
  end.



(** * Properties *)

(** ** The handlers on sample requests *)

Example parse_ids_sample :
  parse_ids (Some " a, b ,,c ") = ["a"; "b"; "c"] /\ parse_ids None = [] /\
  parse_ids (Some "j,j") = ["j"; "j"].
Proof. repeat split; reflexivity. Qed.

Example callback_sample :
  let st1 := (events (Some "abc123") 1 initial).1 in
  let st2 := (events (Some "abc123") 2 st1).1 in
  let st3 := callback (webhook (JStr "abc123") (JArr [JArr [song]])) st2 in
  subscribers st2 !! "abc123" = Some [1; 2] /\
  st3.2 = SendText 200 "OK" /\
  resultsStore st3.1 !! "abc123" = Some (JArr [song]) /\
  subscribers st3.1 !! "abc123" = None /\
  delivered st3.1 1 = [ {| event := "complete"; data := callback_push [JArr [song]] |} ] /\
  delivered st3.1 2 = delivered st3.1 1.
Proof. vm_compute. repeat split; reflexivity. Qed.

(** ** The effect layer *)

Lemma bind_ret {S A B} (m : Eff S A) (k : A -> Eff S B) s s' a :
  m s = (s', Ret a) -> bind m k s = k a s'.
Proof. intros H. unfold bind. by rewrite H. Qed.

Lemma bind_exn {S A B} (m : Eff S A) (k : A -> Eff S B) s s' :
  m s = (s', Exn) -> bind m k s = (s', Exn).
Proof. intros H. unfold bind. by rewrite H. Qed.

(** ** Fan-out: [subs.forEach(res => { try { res.write(payload) } catch (_) { } })] *)

Section FanOut.
Variable f : Frame.

Lemma try_write_broken res st :
  res ∈ broken st -> try_write f res st = (st, Ret tt).
Proof.
  intros Hb. unfold try_write, try_, res_write.
  by destruct (decide (res ∈ broken st)).
Qed.

Lemma try_write_open res st :
  res ∉ broken st ->
  try_write f res st =
    (with_wire (insert res (delivered st res ++ [f])) st, Ret tt).
Proof.
  intros Hb. unfold try_write, try_, res_write.
  by destruct (decide (res ∈ broken st)).
Qed.

Lemma delivered_write res st c :
  delivered (with_wire (insert res (delivered st res ++ [f])) st) c =
  if decide (res = c) then delivered st c ++ [f] else delivered st c.
Proof.
  unfold delivered at 1. cbn. rewrite lookup_insert.
  destruct (decide (res = c)) as [->|]; done.
Qed.

(** Every open response gets one frame per time it sits in [subs]; a
    broken one gets none and stops nobody else. *)
Lemma fan_out_spec subs st :
  exists st',
    forEach (try_write f) subs st = (st', Ret tt) /\
    resultsStore st' = resultsStore st /\
    strayResults st' = strayResults st /\
    subscribers st' = subscribers st /\
    broken st' = broken st /\
    forall c,
      delivered st' c =
      delivered st c ++
        (if decide (c ∈ broken st) then []
         else replicate (registrations c subs) f).
Proof.
  revert st. induction subs as [|x subs IH]; intros st.
  - exists st. repeat split; try done.
    intros c. cbn. destruct (decide (c ∈ broken st)); by rewrite app_nil_r.
  - destruct (decide (x ∈ broken st)) as [Hx|Hx].
    + destruct (IH st) as (st' & Hrun & ? & ? & ? & ? & Hd).
      exists st'. cbn [forEach].
      rewrite (bind_ret _ _ _ _ _ (try_write_broken x st Hx)).
      repeat split; try done.
      intros c. rewrite Hd. unfold registrations. cbn [count_occ].
      destruct (decide (c ∈ broken st)) as [|Hc]; [done|].
      destruct (Nat.eq_dec x c) as [->|]; done.
    + set (st1 := with_wire (insert x (delivered st x ++ [f])) st).
      destruct (IH st1) as (st' & Hrun & ? & ? & ? & Hb & Hd).
      exists st'. cbn [forEach].
      rewrite (bind_ret _ _ _ _ _ (try_write_open x st Hx)).
      repeat split; try done.
      intros c. rewrite Hd. unfold st1. rewrite delivered_write. cbn.
      unfold registrations. cbn [count_occ].
      destruct (decide (c ∈ broken st)) as [Hc|Hc].
      * destruct (decide (x = c)) as [->|]; [done | by rewrite app_nil_r].
      * destruct (decide (x = c)) as [->|Hne].
        -- destruct (Nat.eq_dec c c); [|done].
           cbn. by rewrite <- app_assoc.
        -- destruct (Nat.eq_dec x c); done.
Qed.
End FanOut.

(** ** [pushSSE] *)

(** [pushSSE] never raises, touches [resultsStore] not at all, writes one
    frame per registration to every open subscriber, and on [complete]
    deletes the entry. *)
Lemma pushSSE_spec id ev d st :
  exists st',
    pushSSE id ev d st = (st', Ret tt) /\
    resultsStore st' = resultsStore st /\
    strayResults st' = strayResults st /\
    broken st' = broken st /\
    subscribers st' = retire id ev (subscribers st) /\
    forall c,
      delivered st' c =
      delivered st c ++
        (if decide (c ∈ broken st) then []
         else replicate (registrations c (default [] (subs_get id st)))
                {| event := ev; data := d |}).
Proof.
  unfold pushSSE, bind, gets.
  destruct (subs_get id st) as [subs|] eqn:Hget.
  - destruct id as [| | | |k| |]; try discriminate. cbn in Hget.
    destruct (fan_out_spec {| event := ev; data := d |} subs st)
      as (st1 & Hrun & Hr & Hs & Hsub & Hb & Hd).
    rewrite Hrun. cbn [retire default].
    destruct (String.eqb ev "complete").
    + eexists. split; [reflexivity|]. cbn. rewrite Hsub. repeat split; try done.
    + exists st1. repeat split; try done.
  - exists st. repeat split; try done.
    + destruct id as [| | | |k| |]; cbn; try done. cbn in Hget.
      destruct (String.eqb ev "complete"); [|done]. by rewrite delete_id.
    + intros c. cbn. destruct (decide (c ∈ broken st)); by rewrite app_nil_r.
Qed.

Lemma pushSSE_total id ev d st : (pushSSE id ev d st).2 = Ret tt.
Proof. destruct (pushSSE_spec id ev d st) as (st' & -> & _). done. Qed.

#[local] Arguments pushSSE : simpl never.

(** ** The webhook handler, case by case *)

Lemma callback_no_clip_list payload st :
  (forall l, clips_of payload <> JArr l) ->
  callback payload st = (st, SendText 400 "Invalid callback").
Proof.
  intros H. unfold callback, run, callback_handler.
  destruct (clips_of payload); try done. by destruct (H items).
Qed.

(** With a clip array in [payload.data.data], reading the id cannot raise. *)
Lemma callback_id_defined payload l :
  clips_of payload = JArr l -> exists id, callback_id payload = Some id.
Proof.
  unfold clips_of, callback_id, opt_member.
  destruct payload as [| | | | | |fs]; cbn; try discriminate.
  destruct (field "data" fs) as [| | | | | |fs']; cbn; try discriminate.
  intros _. destruct (truthy (field "task_id" fs')); eauto.
Qed.

Lemma callback_no_id payload l id st :
  clips_of payload = JArr l -> callback_id payload = Some id ->
  truthy id = false ->
  callback payload st = (st, NoReply).
Proof.
  intros Hc Hi Ht. unfold callback, run, callback_handler.
  rewrite Hc, Hi. cbn. unfold bind, ret. by rewrite Ht.
Qed.

Lemma store_set_eq id v st :
  store_set id v st =
    (match id with
     | JStr k => with_results (insert k v) st
     | _ => with_stray (id, v) st
     end, Ret tt).
Proof. by destruct id. Qed.

Lemma callback_accepts payload l id st :
  clips_of payload = JArr l -> callback_id payload = Some id ->
  truthy id = true ->
  callback payload st =
    ((pushSSE id "complete" (callback_push l)
        (store_set id (first_item l) st).1).1,
     SendText 200 "OK").
Proof.
  intros Hc Hi Ht. unfold callback, run, callback_handler.
  rewrite Hc, Hi. cbn [access]. unfold bind at 1. unfold ret at 1.
  rewrite Ht. cbn [negb]. unfold bind at 1. rewrite store_set_eq. cbn [fst].
  match goal with |- context [pushSSE id ?e ?d ?s] =>
    destruct (pushSSE_spec id e d s) as (st' & Hrun & _) end.
  unfold bind. by rewrite Hrun.
Qed.

Lemma callback_resolves payload l k st :
  clips_of payload = JArr l -> callback_id payload = Some (JStr k) ->
  k <> "" ->
  callback payload st =
    ((pushSSE (JStr k) "complete" (callback_push l)
        (with_results (insert k (first_item l)) st)).1,
     SendText 200 "OK").
Proof.
  intros Hc Hi Hk. rewrite (callback_accepts payload l (JStr k)); try done.
  cbn. apply negb_true_iff. by apply String.eqb_neq.
Qed.

(** The webhook handler sends one of three answers and lets no exception out. *)
Lemma callback_replies payload st :
  (callback payload st).2 = SendText 400 "Invalid callback" \/
  (callback payload st).2 = NoReply \/
  (callback payload st).2 = SendText 200 "OK".
Proof.
  destruct (clips_of payload) as [| | | | |l|] eqn:Hc;
    try (left; by rewrite callback_no_clip_list; [|intros l0; rewrite Hc]).
  destruct (callback_id_defined payload l Hc) as [id Hi].
  destruct (truthy id) eqn:Ht.
  - right; right. by rewrite (callback_accepts payload l id).
  - right; left. by rewrite (callback_no_id payload l id).
Qed.

(** ** Attaching: the loop of [GET /events] *)

Lemma server_eq st st' :
  resultsStore st = resultsStore st' -> strayResults st = strayResults st' ->
  subscribers st = subscribers st' -> wire st = wire st' ->
  broken st = broken st' -> st = st'.
Proof. destruct st, st'. cbn. by intros -> -> -> -> ->. Qed.

Lemma attach_hit res id rec st :
  resultsStore st !! id = Some rec ->
  attach res id st = res_write res (complete_frame rec) st.
Proof. intros H. unfold attach, bind, gets. by rewrite H. Qed.

Lemma attach_miss res id st :
  resultsStore st !! id = None ->
  attach res id st =
    (with_subscribers
       (insert id (default [] (subscribers st !! id) ++ [res])) st, Ret tt).
Proof. intros H. unfold attach, bind, gets. by rewrite H. Qed.

Lemma res_write_open res f st :
  res ∉ broken st ->
  res_write res f st =
    (with_wire (insert res (delivered st res ++ [f])) st, Ret tt).
Proof. intros H. unfold res_write. by destruct (decide (res ∈ broken st)). Qed.

Lemma enrol_first res n id0 (m : gmap string (list conn)) :
  enrol res n (<[id0 := default [] (m !! id0) ++ [res]]> m !! id0) =
  enrol res (S n) (m !! id0).
Proof.
  rewrite lookup_insert_eq. destruct n as [|n]; cbn.
  - done.
  - by rewrite <- app_assoc.
Qed.

(** On an open response the loop runs through: each resolved id, at each of
    its occurrences, is answered with the stored record and registers
    nothing; each unresolved id registers [res] once per occurrence. *)
Lemma attach_loop_spec res ids st :
  res ∉ broken st ->
  exists st',
    forEach (attach res) ids st = (st', Ret tt) /\
    resultsStore st' = resultsStore st /\
    strayResults st' = strayResults st /\
    broken st' = broken st /\
    (forall c,
       delivered st' c =
       delivered st c ++
         (if decide (res = c)
          then complete_frame <$> known_records (resultsStore st) ids
          else [])) /\
    (forall id,
       subscribers st' !! id =
       if resolved (resultsStore st) id then subscribers st !! id
       else enrol res (times id ids) (subscribers st !! id)).
Proof.
  revert st. induction ids as [|id0 ids IH]; intros st Hopen.
  - exists st. repeat split; try done.
    + intros c. cbn. destruct (decide (res = c)); by rewrite app_nil_r.
    + intros id. cbn. by destruct (resolved (resultsStore st) id).
  - cbn [forEach]. destruct (resultsStore st !! id0) as [rec|] eqn:Hid0.
    + set (st1 := with_wire (insert res (delivered st res ++ [complete_frame rec])) st).
      destruct (IH st1 Hopen) as (st' & Hrun & Hr & Hs & Hb & Hd & Hsub).
      exists st'. split.
      { erewrite bind_ret; [exact Hrun|].
        rewrite (attach_hit _ _ rec) by done. by apply res_write_open. }
      repeat split; try done.
      * intros c. rewrite Hd. unfold st1. rewrite delivered_write.
        cbn. unfold known_records. cbn [omap list_omap]. rewrite Hid0.
        destruct (decide (res = c)); [|done].
        cbn. by rewrite <- app_assoc.
      * intros id. rewrite Hsub. cbn.
        destruct (resolved (resultsStore st) id) eqn:Hres; [done|].
        unfold times. cbn [count_occ].
        destruct (String.string_dec id0 id) as [->|]; [|done].
        unfold resolved in Hres. by rewrite Hid0 in Hres.
    + set (st1 := with_subscribers
                    (insert id0 (default [] (subscribers st !! id0) ++ [res])) st).
      destruct (IH st1 Hopen) as (st' & Hrun & Hr & Hs & Hb & Hd & Hsub).
      exists st'. split.
      { erewrite bind_ret; [exact Hrun|]. by apply attach_miss. }
      repeat split; try done.
      * intros c. rewrite Hd. cbn.
        unfold known_records. cbn [omap list_omap]. by rewrite Hid0.
      * intros id. rewrite Hsub. cbn.
        destruct (resolved (resultsStore st) id) eqn:Hres.
        -- rewrite lookup_insert_ne; [done|]. intros ->.
           unfold resolved in Hres. by rewrite Hid0 in Hres.
        -- unfold times. cbn [count_occ].
           destruct (String.string_dec id0 id) as [->|Hne].
           ++ apply enrol_first.
           ++ by rewrite lookup_insert_ne.
Qed.

Lemma events_no_ids q res st :
  parse_ids q = [] ->
  events q res st = (st, SendText 400 "clipIds query param required").
Proof. intros H. unfold events, run, events_handler. by rewrite H. Qed.

Lemma events_attaches q res st :
  parse_ids q <> [] ->
  events q res st =
    match forEach (attach res) (parse_ids q) st with
    | (st', Ret _) => (st', StreamOpen)
    | (st', Exn) => (st', Uncaught)
    end.
Proof.
  intros H. unfold events, run, events_handler.
  destruct (parse_ids q) as [|id ids]; [done|]. cbn [List.length Nat.eqb].
  unfold bind. by destruct (forEach (attach res) (id :: ids) st) as [st' [[]|]].
Qed.

(** ** Detaching: the [close] listener *)

Lemma filter_absent (res : conn) (arr : list conn) :
  res ∉ arr -> filter (fun r => r ≠ res) arr = arr.
Proof.
  induction arr as [|x arr IH]; [done|]. intros Hin.
  apply not_elem_of_cons in Hin as [Hne Hin].
  rewrite filter_cons_True by done. by rewrite IH.
Qed.

Lemma filter_removes (res : conn) (arr : list conn) :
  res ∉ filter (fun r => r ≠ res) arr.
Proof. rewrite list_elem_of_filter. by intros [? _]. Qed.

Lemma prune_absent res arr :
  arr <> [] -> res ∉ arr -> prune res (Some arr) = Some arr.
Proof.
  intros Hne Hin. unfold prune. rewrite filter_absent by done.
  by destruct arr.
Qed.

Lemma prune_removes res old arr : prune res old = Some arr -> (res ∉ arr) /\ arr <> [].
Proof.
  unfold prune. destruct old as [l|]; [|done].
  pose proof (filter_removes res l) as Hr.
  destruct (filter (fun r => r ≠ res) l) as [|x l'] eqn:Hf; [done|].
  intros [= <-]. done.
Qed.

Lemma prune_idemp res old : prune res (prune res old) = prune res old.
Proof.
  destruct (prune res old) as [arr|] eqn:H; [|done].
  apply prune_removes in H as [Hin Hne]. by apply prune_absent.
Qed.

Lemma detach_spec res id st :
  exists st',
    detach res id st = (st', Ret tt) /\
    resultsStore st' = resultsStore st /\
    strayResults st' = strayResults st /\
    wire st' = wire st /\
    broken st' = broken st /\
    forall id',
      subscribers st' !! id' =
      if decide (id = id') then prune res (subscribers st !! id)
      else subscribers st !! id'.
Proof.
  unfold detach, bind, gets.
  destruct (subscribers st !! id) as [arr|] eqn:Harr.
  - cbn [prune].
    destruct (filter (fun r => r ≠ res) arr) as [|x l] eqn:Hf; cbn.
    + eexists. split; [reflexivity|]. repeat split; try done.
      intros id'. cbn. rewrite lookup_delete.
      destruct (decide (id = id')); done.
    + eexists. split; [reflexivity|]. repeat split; try done.
      intros id'. cbn. rewrite lookup_insert.
      destruct (decide (id = id')); done.
  - exists st. repeat split; try done.
    intros id'. destruct (decide (id = id')) as [<-|]; done.
Qed.

Lemma detach_loop_spec res ids st :
  exists st',
    forEach (detach res) ids st = (st', Ret tt) /\
    resultsStore st' = resultsStore st /\
    strayResults st' = strayResults st /\
    wire st' = wire st /\
    broken st' = broken st /\
    forall id,
      subscribers st' !! id =
      if decide (id ∈ ids) then prune res (subscribers st !! id)
      else subscribers st !! id.
Proof.
  revert st. induction ids as [|id0 ids IH]; intros st.
  - exists st. by repeat split.
  - destruct (detach_spec res id0 st) as (st1 & Hrun1 & Hr1 & Hs1 & Hw1 & Hb1 & Hsub1).
    destruct (IH st1) as (st' & Hrun & Hr & Hs & Hw & Hb & Hsub).
    exists st'. cbn [forEach]. rewrite (bind_ret _ _ _ _ _ Hrun1).
    split; [done|]. repeat split; try congruence.
    intros id. rewrite Hsub, !Hsub1.
    destruct (decide (id ∈ id0 :: ids)) as [Hin|Hin];
      rewrite elem_of_cons in Hin;
      destruct (decide (id0 = id)) as [->|Hne];
      destruct (decide (id ∈ ids)) as [Hin'|Hin'];
      try done; try (exfalso; intuition congruence).
    apply prune_idemp.
Qed.

(** ** No empty subscriber array *)

Lemma no_empty_set_delete k m : no_empty_set m -> no_empty_set (delete k m).
Proof.
  intros H id arr Hl. apply lookup_delete_Some in Hl as [_ Hl]. by eapply H.
Qed.

Lemma no_empty_set_insert k arr m :
  arr <> [] -> no_empty_set m -> no_empty_set (<[k:=arr]> m).
Proof.
  intros Hne H id arr' Hl.
  apply lookup_insert_Some in Hl as [[_ <-]|[_ Hl]]; [done | by eapply H].
Qed.

Lemma forEach_preserves {S A} (P : S -> Prop) (f : A -> Eff S unit) xs s :
  (forall x s0, P s0 -> P (f x s0).1) -> P s -> P (forEach f xs s).1.
Proof.
  intros Hf. revert s. induction xs as [|x xs IH]; intros s Hs; [done|].
  cbn [forEach]. unfold bind. specialize (Hf x s Hs).
  destruct (f x s) as [s' [[]|]]; cbn in *; [by apply IH | done].
Qed.

Lemma attach_tidy res id st : tidy st -> tidy (attach res id st).1.
Proof.
  intros H. unfold attach, bind, gets.
  destruct (resultsStore st !! id).
  - unfold res_write. by destruct (decide (res ∈ broken st)).
  - cbn. apply no_empty_set_insert; [|done].
    by destruct (default [] (subscribers st !! id)).
Qed.

Lemma detach_tidy res id st : tidy st -> tidy (detach res id st).1.
Proof.
  intros H. destruct (detach_spec res id st) as (st' & -> & _ & _ & _ & _ & Hsub).
  intros id' arr. cbn. rewrite Hsub.
  destruct (decide (id = id')); [|by apply H].
  intros Hp. by apply prune_removes in Hp as [_ ?].
Qed.

Lemma pushSSE_tidy id ev d st : tidy st -> tidy (pushSSE id ev d st).1.
Proof.
  intros H. destruct (pushSSE_spec id ev d st) as (st' & -> & _ & _ & _ & Hsub & _).
  unfold tidy. cbn. rewrite Hsub. unfold retire.
  destruct id; try done.
  destruct (String.eqb ev "complete"); [by apply no_empty_set_delete | done].
Qed.

Lemma store_set_tidy id v st : tidy st -> tidy (store_set id v st).1.
Proof. rewrite store_set_eq. by destruct id. Qed.

(** ** Reconciliation: the partition and the backfill of [GET /status] *)

Lemma partition_from store ids found pending :
  foldl (partition_step store) (found, pending) ids =
    (found ++ known_records store ids, pending ++ unresolved store ids).
Proof.
  revert found pending. induction ids as [|id ids IH]; intros found pending.
  - cbn. by rewrite !app_nil_r.
  - cbn [foldl]. unfold partition_step at 2. unfold known_records, unresolved, resolved.
    cbn [omap list_omap List.filter fst snd].
    destruct (store !! id) as [rec|]; cbn [negb fst snd]; rewrite IH.
    + by rewrite <- app_assoc.
    + by rewrite <- app_assoc.
Qed.

Lemma partition_ids_eq store ids :
  partition_ids store ids = (known_records store ids, unresolved store ids).
Proof. unfold partition_ids. by rewrite partition_from. Qed.

Lemma member_defined clip k :
  nullish clip = false -> exists v, member clip k = Some v.
Proof. destruct clip; cbn; try discriminate; eauto. Qed.

Lemma clip_id_defined clip :
  nullish clip = false -> exists id, clip_id clip = Some id.
Proof.
  intros H. unfold clip_id.
  destruct (member_defined clip "id" H) as [a ->].
  destruct (truthy a); [eauto|]. by apply member_defined.
Qed.

Lemma backfill_null clip st found :
  nullish clip = true -> backfill clip (st, found) = ((st, found), Exn).
Proof. by destruct clip. Qed.

Lemma backfill_skipped clip st found :
  nullish clip = false -> reported clip = false ->
  backfill clip (st, found) = ((st, found), Ret tt).
Proof.
  intros Hn Hr. unfold reported in Hr. unfold backfill.
  destruct (member_defined clip "status" Hn) as [s Hs].
  destruct (clip_id_defined clip Hn) as [id Hid].
  rewrite Hs, Hid in *. cbn [access]. unfold bind at 1. unfold ret at 1.
  destruct (is_complete s); [|done]. cbn in Hr.
  unfold bind, ret. by rewrite Hr.
Qed.

Lemma backfill_reported clip s id st found :
  member clip "status" = Some s -> is_complete s = true ->
  clip_id clip = Some id -> truthy id = true ->
  backfill clip (st, found) =
    (((pushSSE id "complete" clip (store_set id clip st).1).1,
      found ++ [clip]), Ret tt).
Proof.
  intros Hs Hc Hid Ht. unfold backfill. rewrite Hs, Hid. cbn [access].
  unfold bind at 1. unfold ret at 1. rewrite Hc.
  unfold bind at 1. unfold ret at 1. rewrite Ht. cbn [negb].
  unfold bind at 1. unfold on_server at 1. cbn [fst snd].
  rewrite store_set_eq.
  unfold bind at 1. unfold found_push, modify. cbn [fst snd].
  unfold on_server. cbn [fst snd].
  match goal with |- context [pushSSE id ?e ?d ?s0] =>
    destruct (pushSSE_spec id e d s0) as (st' & Hrun & _) end.
  by rewrite Hrun.
Qed.

Lemma backfill_step clip st found :
  nullish clip = false ->
  exists st',
    backfill clip (st, found) =
      ((st', found ++ List.filter reported [clip]), Ret tt) /\
    (tidy st -> tidy st').
Proof.
  intros Hn. cbn [List.filter]. destruct (reported clip) eqn:Hr.
  - unfold reported in Hr.
    destruct (member_defined clip "status" Hn) as [s Hs].
    destruct (clip_id_defined clip Hn) as [id Hid].
    rewrite Hs, Hid in Hr. apply andb_true_iff in Hr as [Hc Ht].
    eexists. split; [by eapply backfill_reported|].
    intros H. by apply pushSSE_tidy, store_set_tidy.
  - exists st. rewrite app_nil_r. split; [by apply backfill_skipped | done].
Qed.

(** The loop pushes onto [found] every reported clip it gets to. *)
Lemma backfill_loop_spec l st found :
  exists st' r,
    forEach backfill l (st, found) =
      ((st', found ++ List.filter reported (heard l)), r) /\
    (tidy st -> tidy st').
Proof.
  revert st found. induction l as [|clip l IH]; intros st found.
  - exists st, (Ret tt). cbn. by rewrite app_nil_r.
  - cbn [forEach heard]. destruct (nullish clip) eqn:Hn.
    + exists st, Exn. cbn [List.filter]. rewrite app_nil_r.
      split; [|done]. by rewrite (bind_exn _ _ _ _ (backfill_null clip st found Hn)).
    + destruct (backfill_step clip st found Hn) as (st1 & Hrun1 & Ht1).
      destruct (IH st1 (found ++ List.filter reported [clip]))
        as (st' & r & Hrun & Ht).
      exists st', r. rewrite (bind_ret _ _ _ _ _ Hrun1), Hrun.
      split; [|by auto].
      cbn [List.filter]. destruct (reported clip); cbn; by rewrite <- ?app_assoc.
Qed.

Lemma status_end_spec found pending api st :
  exists st',
    status_end found pending api st =
      (st', found ++ (match pending with [] => [] | _ => newly_found api end)) /\
    (tidy st -> tidy st').
Proof.
  unfold status_end. destruct pending as [|p pending]; cbn [List.length Nat.ltb Nat.leb].
  - exists st. by rewrite app_nil_r.
  - unfold try_. cbn [fst]. unfold status_query, newly_found.
    destruct api as [|r_data]; [exists st; by rewrite app_nil_r|].
    destruct (clip_list r_data) as [l|]; [|exists st; by rewrite app_nil_r].
    destruct (backfill_loop_spec l st found) as (st' & r & -> & Ht).
    by exists st'.
Qed.

(** The reply of [GET /status] when ids were given. *)
Lemma status_reply_eq q api st :
  parse_ids q <> [] ->
  let pending := unresolved (resultsStore st) (parse_ids q) in
  (status q api st).2 =
    SendJson 200
      (status_body
         (known_records (resultsStore st) (parse_ids q) ++
          match pending with [] => [] | _ => newly_found api end)
         pending).
Proof.
  intros Hids. unfold status, status_begin.
  destruct (parse_ids q) as [|id ids] eqn:Hq; [done|].
  cbn [List.length Nat.eqb]. rewrite partition_ids_eq.
  destruct (status_end_spec (known_records (resultsStore st) (id :: ids))
              (unresolved (resultsStore st) (id :: ids)) api st)
    as (st' & -> & _).
  done.
Qed.


(** ** Every run keeps the registry tidy *)

Lemma events_tidy q res st : tidy st -> tidy (events q res st).1.
Proof.
  intros H. destruct (parse_ids q) as [|id ids] eqn:Hq.
  - by rewrite events_no_ids.
  - rewrite events_attaches by by rewrite Hq.
    pose proof (forEach_preserves tidy (attach res) (parse_ids q) st
                  (attach_tidy res) H) as Ht.
    by destruct (forEach (attach res) (parse_ids q) st) as [st' [[]|]].
Qed.

Lemma on_close_tidy q res st : tidy st -> tidy (on_close q res st).
Proof. apply forEach_preserves. apply detach_tidy. Qed.

Lemma callback_tidy payload st : tidy st -> tidy (callback payload st).1.
Proof.
  intros H.
  destruct (clips_of payload) as [| | | | |l|] eqn:Hc;
    try (by rewrite callback_no_clip_list; [|intros l0; rewrite Hc]).
  destruct (callback_id_defined payload l Hc) as [id Hi].
  destruct (truthy id) eqn:Ht.
  - rewrite (callback_accepts payload l id) by done.
    by apply pushSSE_tidy, store_set_tidy.
  - by rewrite (callback_no_id payload l id).
Qed.

Lemma status_end_tidy found pending api st :
  tidy st -> tidy (status_end found pending api st).1.
Proof.
  destruct (status_end_spec found pending api st) as (st' & -> & Ht). exact Ht.
Qed.

Lemma status_tidy q api st : tidy st -> tidy (status q api st).1.
Proof.
  intros H. unfold status. destruct (status_begin q st) as [r|[found pending]]; [done|].
  pose proof (status_end_tidy found pending api st H) as Ht.
  by destruct (status_end found pending api st).
Qed.

Lemma step_tidy a st : tidy st -> tidy (step a st).
Proof.
  destruct a; cbn [step].
  - apply events_tidy.
  - apply on_close_tidy.
  - apply callback_tidy.
  - apply status_tidy.
  - apply status_end_tidy.
  - done.
Qed.

Lemma reachable_tidy st : reachable st -> tidy st.
Proof.
  induction 1 as [|a st _ IH].
  - intros id arr H. cbn in H. by rewrite lookup_empty in H.
  - by apply step_tidy.
Qed.

(** * The claims *)

(** ** C1 *)

(** C1, as stated, fails.  A record stored for ["j"] is replaced by a second
    webhook for ["j"]; and a reconciliation for ["j"] that was waiting for
    the collaborator while the webhook came in replaces the webhook's record
    with the collaborator's clip. *)
Lemma later_resolution_replaces_record :
  let st2 := (callback (webhook (JStr "j") (JArr [JStr "second"])) resolved_j).1 in
  let st3 := (status_end [] ["j"] (AxiosResolved (JArr [clip_of "j" "third"]))
                resolved_j).1 in
  resultsStore resolved_j !! "j" = Some (JStr "first") /\
  resultsStore st2 !! "j" = Some (JStr "second") /\
  status_begin (Some "j") initial = inr ([], ["j"]) /\
  resultsStore st3 !! "j" = Some (clip_of "j" "third").
Proof. vm_compute. repeat split; reflexivity. Qed.

(** C1, amended: a later resolution for [k], by the webhook or by the
    reconciliation, stores the newly reported record in place of the one
    already there (the last writer wins); the webhook still answers 200 and
    nothing is raised. *)
Theorem resolution_last_writer_wins st k old payload l clip found pending :
  resultsStore st !! k = Some old -> k <> "" ->
  clips_of payload = JArr l -> callback_id payload = Some (JStr k) ->
  member clip "status" = Some (JStr "complete") ->
  clip_id clip = Some (JStr k) -> pending <> [] ->
  (callback payload st).2 = SendText 200 "OK" /\
  resultsStore (callback payload st).1 = <[k := first_item l]> (resultsStore st) /\
  resultsStore (status_end found pending (AxiosResolved (JArr [clip])) st).1
    = <[k := clip]> (resultsStore st) /\
  (status_end found pending (AxiosResolved (JArr [clip])) st).2 = found ++ [clip].
Proof.
  intros _ Hk Hc Hi Hs Hid Hp.
  assert (truthy (JStr k) = true) as Ht.
  { cbn. apply negb_true_iff. by apply String.eqb_neq. }
  rewrite (callback_resolves payload l k st Hc Hi Hk). cbn [fst snd].
  split; [done|]. split.
  - match goal with |- context [pushSSE ?i ?e ?d ?s0] =>
      destruct (pushSSE_spec i e d s0) as (st' & -> & Hr & _) end.
    cbn [fst snd]. by rewrite Hr.
  - unfold status_end. destruct pending as [|p pending]; [done|].
    cbn [List.length Nat.ltb Nat.leb]. unfold try_, status_query.
    cbn [clip_list forEach fst].
    erewrite bind_ret; [|by eapply backfill_reported].
    cbn [ret fst snd]. rewrite store_set_eq. cbn [fst].
    match goal with |- context [pushSSE ?i ?e ?d ?s0] =>
      destruct (pushSSE_spec i e d s0) as (st' & -> & Hr & _) end.
    cbn [fst snd]. by rewrite Hr.
Qed.

(** C1, amended, at the second webhook for ["j"] and at the reconciliation
    for ["j"] that ends after the first webhook. *)
Lemma resolution_last_writer_wins_witness :
  (callback (webhook (JStr "j") (JArr [JStr "second"])) resolved_j).2
    = SendText 200 "OK" /\
  resultsStore (callback (webhook (JStr "j") (JArr [JStr "second"])) resolved_j).1
    = <["j" := JStr "second"]> (resultsStore resolved_j) /\
  resultsStore (status_end [] ["j"] (AxiosResolved (JArr [clip_of "j" "third"]))
                  resolved_j).1
    = <["j" := clip_of "j" "third"]> (resultsStore resolved_j) /\
  (status_end [] ["j"] (AxiosResolved (JArr [clip_of "j" "third"])) resolved_j).2
    = [] ++ [clip_of "j" "third"].
Proof.
  apply (resolution_last_writer_wins resolved_j "j" (JStr "first")
           (webhook (JStr "j") (JArr [JStr "second"])) [JStr "second"]
           (clip_of "j" "third") [] ["j"]);
    try reflexivity; discriminate.
Defined.

(** ** C2 *)

(** C2, as stated, fails on its own scenario: ids ["a","b"], ["a"] already
    resolved, the collaborator reports ["b"] complete.  [found] holds both
    records, ["b"] is in the store afterwards, and [pending] is still
    [["b"]]. *)
Lemma backfilled_id_stays_pending :
  let r := status (Some "a,b") (AxiosResolved (JArr [clip_of "b" "B"])) resolved_a in
  r.2 = SendJson 200 (status_body [clip_of "a" "A"; clip_of "b" "B"] ["b"]) /\
  resultsStore r.1 !! "b" = Some (clip_of "b" "B").
Proof. vm_compute. split; reflexivity. Qed.

(** C2, amended: with a non-empty id list the reply is 200 with
    [found] = the stored records of the requested ids followed by the clips
    the collaborator reported complete in this request, and
    [pending] = the requested ids that were not in the store when the
    request arrived; the backfill removes nothing from [pending]. *)
Theorem status_found_and_pending q api st :
  parse_ids q <> [] ->
  (status q api st).2 =
    SendJson 200
      (status_body
         (known_records (resultsStore st) (parse_ids q) ++
          match unresolved (resultsStore st) (parse_ids q) with
          | [] => []
          | _ => newly_found api
          end)
         (unresolved (resultsStore st) (parse_ids q))).
Proof. apply status_reply_eq. Qed.

(** C2, amended, at the scenario. *)
Lemma status_found_and_pending_witness :
  (status (Some "a,b") (AxiosResolved (JArr [clip_of "b" "B"])) resolved_a).2 =
    SendJson 200
      (status_body
         (known_records (resultsStore resolved_a) (parse_ids (Some "a,b")) ++
          match unresolved (resultsStore resolved_a) (parse_ids (Some "a,b")) with
          | [] => []
          | _ => newly_found (AxiosResolved (JArr [clip_of "b" "B"]))
          end)
         (unresolved (resultsStore resolved_a) (parse_ids (Some "a,b")))).
Proof.
  apply (status_found_and_pending (Some "a,b")
           (AxiosResolved (JArr [clip_of "b" "B"])) resolved_a).
  vm_compute. discriminate.
Defined.

(** ** C3 *)

(** C3 at a payload with a clip list and no [task_id]: the handler returns
    without sending anything; no 400 goes out.  The state is left as it
    was. *)
Theorem callback_without_id_sends_nothing st :
  callback (JObj [("data", JObj [("data", JArr [JArr [song]])])]) st
    = (st, NoReply).
Proof. by apply (callback_no_id _ [JArr [song]] JUndefined). Qed.

(** ** C4 *)

(** C4, as stated, fails twice over.  A response that attached with
    [clipIds=j,j] sits twice in the array of ["j"] and is written to twice
    when ["j"] resolves; a response whose write fails is written nothing and
    is retired with the rest. *)
Lemma listener_hears_twice_or_never :
  let frame := complete_frame (callback_push [song]) in
  let st1 := (events (Some "j,j") 7 initial).1 in
  let st2 := (callback (webhook (JStr "j") (JArr [song])) st1).1 in
  let st1' := step (DoBreak 8) (events (Some "j") 8 initial).1 in
  let st2' := (callback (webhook (JStr "j") (JArr [song])) st1').1 in
  subscribers st1 !! "j" = Some [7; 7] /\
  delivered st2 7 = [frame; frame] /\
  subscribers st1' !! "j" = Some [8] /\
  delivered st2' 8 = [] /\ subscribers st2' !! "j" = None.
Proof. vm_compute. repeat split; reflexivity. Qed.

(** C4, amended: when [k] resolves, every listener whose write does not
    fail is written the completion frame once per time its response sits in
    the array of [k] (exactly once when it sits there once), and afterwards
    [subscribers] has no entry for [k]. *)
Theorem resolution_fan_out st k d subs c :
  subscribers st !! k = Some subs -> c ∉ broken st ->
  let st' := (pushSSE (JStr k) "complete" d st).1 in
  delivered st' c =
    delivered st c ++ replicate (registrations c subs) (complete_frame d) /\
  (registrations c subs = 1 ->
     delivered st' c = delivered st c ++ [complete_frame d]) /\
  subscribers st' !! k = None.
Proof.
  intros Hsubs Hopen.
  destruct (pushSSE_spec (JStr k) "complete" d st)
    as (st' & Hrun & _ & _ & _ & Hsub & Hd).
  rewrite Hrun. cbn [fst].
  assert (delivered st' c =
          delivered st c ++ replicate (registrations c subs) (complete_frame d))
    as Hc.
  { rewrite Hd. cbn [subs_get]. rewrite Hsubs. cbn [default].
    by destruct (decide (c ∈ broken st)). }
  split; [done|]. split.
  - intros H1. by rewrite Hc, H1.
  - rewrite Hsub. cbn. apply lookup_delete_eq.
Qed.

(** C4, amended, at two listeners on ["abc123"]. *)
Lemma resolution_fan_out_witness :
  let st := (events (Some "abc123") 2 (events (Some "abc123") 1 initial).1).1 in
  let st' := (pushSSE (JStr "abc123") "complete" song st).1 in
  delivered st' 2 =
    delivered st 2 ++ replicate (registrations 2 [1; 2]) (complete_frame song) /\
  (registrations 2 [1; 2] = 1 ->
     delivered st' 2 = delivered st 2 ++ [complete_frame song]) /\
  subscribers st' !! "abc123" = None.
Proof.
  apply (resolution_fan_out
           (events (Some "abc123") 2 (events (Some "abc123") 1 initial).1).1
           "abc123" song [1; 2] 2).
  - reflexivity.
  - intros H. vm_compute in H. discriminate H.
Defined.

(** ** C5 *)

(** C5, as stated, fails: a repeated id is not ignored.  Named twice, a
    resolved id is answered twice at attach, and an unresolved id registers
    the response twice. *)
Lemma repeated_id_is_served_twice :
  delivered (events (Some "j,j") 7 resolved_j).1 7
    = [complete_frame (JStr "first"); complete_frame (JStr "first")] /\
  subscribers (events (Some "j,j") 7 initial).1 !! "j" = Some [7; 7].
Proof. vm_compute. split; reflexivity. Qed.

Lemma registrations_enrol (c : conn) (n : nat) (old : option (list conn)) :
  registrations c (default [] (enrol c n old)) =
  registrations c (default [] old) + n.
Proof.
  unfold registrations. destruct n as [|n]; cbn [enrol]; [lia|].
  cbn [from_option id]. rewrite count_occ_app. f_equal.
  generalize (S n). intros m. induction m as [|m IH]; cbn; [done|].
  destruct (Nat.eq_dec c c); [by rewrite IH | done].
Qed.

(** C5, amended: every occurrence of an id in the requested list is handled
    on its own.  At attach the response is written one completion frame per
    occurrence of each id already in the store, in request order, and is
    pushed onto the array of each other id once per occurrence, so that the
    resolution of such an id writes to it once per occurrence; an id named
    once is answered once or registered once. *)
Theorem attach_once_per_occurrence q res st :
  parse_ids q <> [] -> res ∉ broken st ->
  let r := events q res st in
  r.2 = StreamOpen /\
  delivered r.1 res =
    delivered st res ++
      (complete_frame <$> known_records (resultsStore st) (parse_ids q)) /\
  (forall id,
     subscribers r.1 !! id =
     if resolved (resultsStore st) id then subscribers st !! id
     else enrol res (times id (parse_ids q)) (subscribers st !! id)) /\
  (forall id d,
     resolved (resultsStore st) id = false ->
     delivered (pushSSE (JStr id) "complete" d r.1).1 res =
       delivered r.1 res ++
         replicate
           (registrations res (default [] (subscribers st !! id)) +
            times id (parse_ids q))
           (complete_frame d)).
Proof.
  intros Hids Hopen. cbn zeta. rewrite events_attaches by done.
  destruct (attach_loop_spec res (parse_ids q) st Hopen)
    as (st' & -> & _ & _ & Hb & Hd & Hsub).
  cbn [fst snd]. split; [done|]. split; [|split; [done|]].
  - rewrite Hd. by rewrite decide_True.
  - intros id d Hres.
    destruct (pushSSE_spec (JStr id) "complete" d st')
      as (st'' & -> & _ & _ & _ & _ & Hd').
    cbn [fst]. rewrite Hd', Hb. cbn [subs_get].
    rewrite decide_False by done.
    by rewrite Hsub, Hres, registrations_enrol.
Qed.

(** C5, amended, at [clipIds=j,k,k] with ["j"] resolved. *)
Lemma attach_once_per_occurrence_witness :
  let r := events (Some "j,k,k") 7 resolved_j in
  r.2 = StreamOpen /\
  delivered r.1 7 =
    delivered resolved_j 7 ++
      (complete_frame <$>
         known_records (resultsStore resolved_j) (parse_ids (Some "j,k,k"))) /\
  (forall id,
     subscribers r.1 !! id =
     if resolved (resultsStore resolved_j) id then subscribers resolved_j !! id
     else enrol 7 (times id (parse_ids (Some "j,k,k")))
            (subscribers resolved_j !! id)) /\
  (forall id d,
     resolved (resultsStore resolved_j) id = false ->
     delivered (pushSSE (JStr id) "complete" d r.1).1 7 =
       delivered r.1 7 ++
         replicate
           (registrations 7 (default [] (subscribers resolved_j !! id)) +
            times id (parse_ids (Some "j,k,k")))
           (complete_frame d)).
Proof.
  apply (attach_once_per_occurrence (Some "j,k,k") 7 resolved_j).
  - vm_compute. discriminate.
  - intros H. vm_compute in H. discriminate H.
Defined.

(** ** C6 *)

(** C6: an id whose record is in the store when a request attaches is
    answered at once with that record on the request's response, and the
    array of that id in [subscribers] is left as it was. *)
Theorem resolved_id_takes_fast_path q res st j rec :
  j ∈ parse_ids q -> resultsStore st !! j = Some rec -> res ∉ broken st ->
  let r := events q res st in
  r.2 = StreamOpen /\
  (exists new,
     delivered r.1 res = delivered st res ++ new /\
     complete_frame rec ∈ new) /\
  subscribers r.1 !! j = subscribers st !! j.
Proof.
  intros Hj Hrec Hopen. cbn zeta.
  assert (parse_ids q <> []) as Hids.
  { intros Hnil. rewrite Hnil in Hj. by apply elem_of_nil in Hj. }
  rewrite events_attaches by done.
  destruct (attach_loop_spec res (parse_ids q) st Hopen)
    as (st' & -> & _ & _ & _ & Hd & Hsub).
  cbn [fst snd]. split; [done|]. split.
  - eexists. split.
    + rewrite Hd. by rewrite decide_True.
    + apply list_elem_of_fmap_2. unfold known_records.
      apply list_elem_of_omap. eauto.
  - rewrite Hsub. unfold resolved. by rewrite Hrec.
Qed.

(** C6 at [clipIds=k,j] with ["j"] resolved. *)
Lemma resolved_id_takes_fast_path_witness :
  let r := events (Some "k,j") 7 resolved_j in
  r.2 = StreamOpen /\
  (exists new,
     delivered r.1 7 = delivered resolved_j 7 ++ new /\
     complete_frame (JStr "first") ∈ new) /\
  subscribers r.1 !! "j" = subscribers resolved_j !! "j".
Proof.
  apply (resolved_id_takes_fast_path (Some "k,j") 7 resolved_j "j" (JStr "first")).
  - vm_compute. apply elem_of_cons. right. apply elem_of_cons. by left.
  - reflexivity.
  - intros H. vm_compute in H. discriminate H.
Defined.

(** ** C7 *)

Lemma registered_positive (c : conn) (subs : list conn) :
  c ∈ subs -> 0 < registrations c subs.
Proof.
  intros Hin. apply list_elem_of_In in Hin.
  by apply (count_occ_In Nat.eq_dec) in Hin.
Qed.

(** C7: [pushSSE] runs to its end without raising whatever the responses
    do, the webhook handler that calls it lets no exception out, and every
    listener in the array whose own write works is written the frame, at
    each of its places in the array, wherever the failing listeners sit. *)
Theorem fan_out_survives_failed_writes id ev d st subs c payload :
  subs_get id st = Some subs -> c ∈ subs -> c ∉ broken st ->
  (pushSSE id ev d st).2 = Ret tt /\
  (callback payload st).2 <> Uncaught /\
  delivered (pushSSE id ev d st).1 c =
    delivered st c ++
      replicate (registrations c subs) {| event := ev; data := d |} /\
  0 < registrations c subs.
Proof.
  intros Hget Hin Hopen. split; [apply pushSSE_total|]. split.
  { destruct (callback_replies payload st) as [->|[->| ->]]; discriminate. }
  split; [|by apply registered_positive].
  destruct (pushSSE_spec id ev d st) as (st' & -> & _ & _ & _ & _ & Hd).
  cbn [fst]. rewrite Hd, Hget. cbn [default].
  by destruct (decide (c ∈ broken st)).
Qed.

(** C7 at the listener behind the broken one. *)
Lemma fan_out_survives_failed_writes_witness :
  (pushSSE (JStr "j") "complete" song middle_broken).2 = Ret tt /\
  (callback (webhook (JStr "j") (JArr [song])) middle_broken).2 <> Uncaught /\
  delivered (pushSSE (JStr "j") "complete" song middle_broken).1 3 =
    delivered middle_broken 3 ++
      replicate (registrations 3 [1; 2; 3]) {| event := "complete"; data := song |} /\
  0 < registrations 3 [1; 2; 3].
Proof.
  apply (fan_out_survives_failed_writes (JStr "j") "complete" song
           middle_broken [1; 2; 3] 3 (webhook (JStr "j") (JArr [song]))).
  - reflexivity.
  - apply elem_of_cons. right. apply elem_of_cons. right.
    apply elem_of_cons. by left.
  - intros H. vm_compute in H. discriminate H.
Defined.

(** ** C8 *)

(** C8: on every state a run can reach, the [close] listener never raises;
    running it again changes nothing; where the response is registered under
    none of its ids it changes nothing at all; afterwards the response is
    under none of its ids; an array it empties is deleted; and no array in
    [subscribers] is empty, before or after. *)
Theorem unsubscribe_idempotent_and_tidy st q res :
  reachable st ->
  let st' := on_close q res st in
  (forEach (detach res) (parse_ids q) st).2 = Ret tt /\
  on_close q res st' = st' /\
  ((forall id arr,
      id ∈ parse_ids q -> subscribers st !! id = Some arr -> res ∉ arr) ->
   st' = st) /\
  (forall id arr,
     id ∈ parse_ids q -> subscribers st' !! id = Some arr -> res ∉ arr) /\
  (forall id arr,
     id ∈ parse_ids q -> subscribers st !! id = Some arr ->
     filter (fun r => r ≠ res) arr = [] -> subscribers st' !! id = None) /\
  (forall id arr, subscribers st !! id = Some arr -> arr <> []) /\
  (forall id arr, subscribers st' !! id = Some arr -> arr <> []).
Proof.
  intros Hreach. cbn zeta.
  pose proof (reachable_tidy st Hreach) as Htidy.
  assert (forall s, on_close q res s = (forEach (detach res) (parse_ids q) s).1)
    as Hoc by done.
  destruct (detach_loop_spec res (parse_ids q) st)
    as (st' & Hrun & Hr & Hs & Hw & Hb & Hsub).
  destruct (detach_loop_spec res (parse_ids q) st')
    as (st'' & Hrun' & Hr' & Hs' & Hw' & Hb' & Hsub').
  rewrite !Hoc, Hrun. cbn [fst snd]. rewrite Hrun'. cbn [fst].
  split; [done|]. split; [|split; [|split; [|split; [|split]]]].
  - apply server_eq; try done. apply map_eq. intros id.
    rewrite Hsub', Hsub.
    destruct (decide (id ∈ parse_ids q)); [apply prune_idemp | done].
  - intros Hnot. apply server_eq; try done. apply map_eq. intros id.
    rewrite Hsub. destruct (decide (id ∈ parse_ids q)) as [Hin|]; [|done].
    destruct (subscribers st !! id) as [arr|] eqn:Harr; [|done].
    apply prune_absent; [by eapply Htidy | by eapply Hnot].
  - intros id arr Hin. rewrite Hsub, decide_True by done.
    intros Hp. by apply prune_removes in Hp as [? _].
  - intros id arr Hin Harr Hf. rewrite Hsub, decide_True by done.
    rewrite Harr. cbn. by rewrite Hf.
  - exact Htidy.
  - apply (on_close_tidy q res) in Htidy. by rewrite Hoc, Hrun in Htidy.
Qed.

(** C8 at a response that closes after attaching to ["j"]. *)
Lemma unsubscribe_idempotent_and_tidy_witness :
  let st := step (DoEvents (Some "j") 7) initial in
  let st' := on_close (Some "j,k") 7 st in
  (forEach (detach 7) (parse_ids (Some "j,k")) st).2 = Ret tt /\
  on_close (Some "j,k") 7 st' = st' /\
  ((forall id arr,
      id ∈ parse_ids (Some "j,k") -> subscribers st !! id = Some arr -> 7 ∉ arr) ->
   st' = st) /\
  (forall id arr,
     id ∈ parse_ids (Some "j,k") -> subscribers st' !! id = Some arr -> 7 ∉ arr) /\
  (forall id arr,
     id ∈ parse_ids (Some "j,k") -> subscribers st !! id = Some arr ->
     filter (fun r => r ≠ 7) arr = [] -> subscribers st' !! id = None) /\
  (forall id arr, subscribers st !! id = Some arr -> arr <> []) /\
  (forall id arr, subscribers st' !! id = Some arr -> arr <> []).
Proof.
  apply (unsubscribe_idempotent_and_tidy
           (step (DoEvents (Some "j") 7) initial) (Some "j,k") 7).
  apply reach_step, reach_initial.
Defined.

(** ** C9 *)

(** C9: with ids given, a rejected status query leaves the server state as
    it was and the reply is 200 with the stored records as [found] and the
    ids not in the store as [pending]; and whatever the collaborator does,
    the reply is a 200 with that same [pending]. *)
Theorem status_survives_api_failure q st api :
  parse_ids q <> [] ->
  status q AxiosRejected st =
    (st, SendJson 200
           (status_body (known_records (resultsStore st) (parse_ids q))
                        (unresolved (resultsStore st) (parse_ids q)))) /\
  exists found,
    (status q api st).2 =
      SendJson 200 (status_body found (unresolved (resultsStore st) (parse_ids q))).
Proof.
  intros Hids. split.
  - unfold status, status_begin.
    destruct (parse_ids q) as [|id ids]; [done|].
    cbn [List.length Nat.eqb]. rewrite partition_ids_eq.
    unfold status_end.
    by destruct (unresolved (resultsStore st) (id :: ids)).
  - eexists. by apply status_reply_eq.
Qed.

(** C9 at ids ["a","b"] with ["a"] resolved. *)
Lemma status_survives_api_failure_witness :
  status (Some "a,b") AxiosRejected resolved_a =
    (resolved_a,
     SendJson 200
       (status_body
          (known_records (resultsStore resolved_a) (parse_ids (Some "a,b")))
          (unresolved (resultsStore resolved_a) (parse_ids (Some "a,b"))))) /\
  exists found,
    (status (Some "a,b") (AxiosResolved JNull) resolved_a).2 =
      SendJson 200
        (status_body found
           (unresolved (resultsStore resolved_a) (parse_ids (Some "a,b")))).
Proof.
  apply (status_survives_api_failure (Some "a,b") resolved_a (AxiosResolved JNull)).
  vm_compute. discriminate.
Defined.

(** ** C10 *)

(** C10: a payload with an empty clip array and a string id is accepted.
    The reply is 200; [undefined] is stored under the id; the listeners of
    the id are written to and its array is deleted; from then on an attach
    for the id writes the stored [undefined] instead of registering, and the
    partition of [GET /status] counts the id as found. *)
Theorem empty_clip_list_is_accepted payload k st :
  clips_of payload = JArr [] -> callback_id payload = Some (JStr k) ->
  k <> "" ->
  let r := callback payload st in
  r.2 = SendText 200 "OK" /\
  resultsStore r.1 !! k = Some JUndefined /\
  subscribers r.1 !! k = None /\
  (forall c,
     c ∉ broken st ->
     delivered r.1 c =
       delivered st c ++
         replicate (registrations c (default [] (subscribers st !! k)))
           (complete_frame (callback_push []))) /\
  (forall res,
     attach res k r.1 = res_write res (complete_frame JUndefined) r.1) /\
  partition_ids (resultsStore r.1) [k] = ([JUndefined], []).
Proof.
  intros Hc Hi Hk. cbn zeta.
  rewrite (callback_resolves payload [] k st Hc Hi Hk). cbn [fst snd first_item].
  destruct (pushSSE_spec (JStr k) "complete" (callback_push [])
              (with_results (insert k JUndefined) st))
    as (st' & -> & Hr & _ & _ & Hsub & Hd).
  cbn [fst]. cbn in Hr, Hsub.
  assert (resultsStore st' !! k = Some JUndefined) as Hstored.
  { rewrite Hr. apply lookup_insert_eq. }
  split; [done|]. split; [done|]. split; [|split; [|split]].
  - rewrite Hsub. apply lookup_delete_eq.
  - intros c Hopen. rewrite Hd. cbn.
    by destruct (decide (c ∈ broken st)).
  - intros res. by apply attach_hit.
  - unfold partition_ids. cbn [foldl]. unfold partition_step. by rewrite Hstored.
Qed.

(** C10 at [{ data: { task_id: "j", data: [] } }] with one listener. *)
Lemma empty_clip_list_is_accepted_witness :
  let st := (events (Some "j") 7 initial).1 in
  let r := callback (webhook (JStr "j") (JArr [])) st in
  r.2 = SendText 200 "OK" /\
  resultsStore r.1 !! "j" = Some JUndefined /\
  subscribers r.1 !! "j" = None /\
  (forall c,
     c ∉ broken st ->
     delivered r.1 c =
       delivered st c ++
         replicate (registrations c (default [] (subscribers st !! "j")))
           (complete_frame (callback_push []))) /\
  (forall res,
     attach res "j" r.1 = res_write res (complete_frame JUndefined) r.1) /\
  partition_ids (resultsStore r.1) ["j"] = ([JUndefined], []).
Proof.
  apply (empty_clip_list_is_accepted (webhook (JStr "j") (JArr [])) "j"
           (events (Some "j") 7 initial).1); try reflexivity; discriminate.
Defined.

(** * Further properties of the notification core *)

(** ** What [parse_ids] lets through *)

Lemma split_on_cons sep s : exists hd tl, split_on sep s = hd :: tl.
Proof.
  destruct s as [|c rest]; cbn; [eauto|].
  destruct (Ascii.eqb c sep); [eauto|].
  destruct (split_on sep rest); eauto.
Qed.

















(** ** Whatever the four building blocks keep, every run keeps *)

Lemma callback_state payload st :
  (callback payload st).1 = st \/
  exists l id,
    clips_of payload = JArr l /\ truthy id = true /\
    (callback payload st).1 =
      (pushSSE id "complete" (callback_push l)
         (store_set id (first_item l) st).1).1.
Proof.
  destruct (clips_of payload) as [| | | | |l|] eqn:Hc;
    try (left; by rewrite callback_no_clip_list; [|intros l0; rewrite Hc]).
  destruct (callback_id_defined payload l Hc) as [id Hi].
  destruct (truthy id) eqn:Ht.
  - right. exists l, id. by rewrite (callback_accepts payload l id).
  - left. by rewrite (callback_no_id payload l id).
Qed.

Section Invariant.
Variable P : Server -> Prop.
Hypothesis P_attach : forall res id st, P st -> P (attach res id st).1.
Hypothesis P_detach : forall res id st, P st -> P (detach res id st).1.
Hypothesis P_resolve : forall id v d st,
  P st -> P (pushSSE id "complete" d (store_set id v st).1).1.
Hypothesis P_break : forall c st, P st -> P (with_broken (union {[c]}) st).

Lemma events_keeps q res st : P st -> P (events q res st).1.
Proof.
  intros H. destruct (parse_ids q) as [|id ids] eqn:Hq.
  - by rewrite events_no_ids.
  - rewrite events_attaches by by rewrite Hq.
    pose proof (forEach_preserves P (attach res) (parse_ids q) st
                  (P_attach res) H) as Ht.
    by destruct (forEach (attach res) (parse_ids q) st) as [st' [[]|]].
Qed.

Lemma on_close_keeps q res st : P st -> P (on_close q res st).
Proof. apply forEach_preserves. apply P_detach. Qed.

Lemma callback_keeps payload st : P st -> P (callback payload st).1.
Proof.
  intros H. destruct (callback_state payload st) as [->|(l & id & _ & _ & ->)];
    [done | by apply P_resolve].
Qed.

Lemma backfill_keeps clip (s : Server * list JsVal) :
  P s.1 -> P (backfill clip s).1.1.
Proof.
  destruct s as [st found]. cbn [fst]. intros H.
  destruct (nullish clip) eqn:Hn; [by rewrite backfill_null|].
  destruct (reported clip) eqn:Hr; [|by rewrite backfill_skipped].
  unfold reported in Hr.
  destruct (member_defined clip "status" Hn) as [s Hs].
  destruct (clip_id_defined clip Hn) as [id Hid].
  rewrite Hs, Hid in Hr. apply andb_true_iff in Hr as [Hc Ht].
  rewrite (backfill_reported clip s id st found) by done.
  by apply P_resolve.
Qed.

Lemma status_end_keeps found pending api st :
  P st -> P (status_end found pending api st).1.
Proof.
  intros H. unfold status_end.
  destruct (Nat.ltb 0 (List.length pending)); [|done].
  unfold try_. cbn [fst]. unfold status_query.
  destruct api as [|r_data]; [done|].
  destruct (clip_list r_data) as [l|]; [|done].
  apply (forEach_preserves (fun s : Server * list JsVal => P s.1));
    [intros; by apply backfill_keeps | done].
Qed.

Lemma status_keeps q api st : P st -> P (status q api st).1.
Proof.
  intros H. unfold status.
  destruct (status_begin q st) as [r|[found pending]]; [done|].
  pose proof (status_end_keeps found pending api st H) as Ht.
  by destruct (status_end found pending api st).
Qed.

Lemma step_keeps a st : P st -> P (step a st).
Proof.
  destruct a; cbn [step].
  - apply events_keeps.
  - apply on_close_keeps.
  - apply callback_keeps.
  - apply status_keeps.
  - apply status_end_keeps.
  - apply P_break.
Qed.

Lemma run_steps_keeps l st : P st -> P (run_steps l st).
Proof.
  unfold run_steps. revert st. induction l as [|a l IH]; intros st H; [done|].
  cbn [foldl]. by apply IH, step_keeps.
Qed.

Lemma reachable_keeps st : P initial -> reachable st -> P st.
Proof. intros H0. induction 1; [done | by apply step_keeps]. Qed.
End Invariant.

Lemma attach_store res id st :
  resultsStore (attach res id st).1 = resultsStore st.
Proof.
  unfold attach, bind, gets. destruct (resultsStore st !! id); [|done].
  unfold res_write. by destruct (decide (res ∈ broken st)).
Qed.

Lemma attach_subscribers res id st id' :
  subscribers (attach res id st).1 !! id' = subscribers st !! id' \/
  resultsStore st !! id' = None.
Proof.
  unfold attach, bind, gets. destruct (resultsStore st !! id) eqn:Hid.
  - left. unfold res_write. by destruct (decide (res ∈ broken st)).
  - cbn. destruct (decide (id = id')) as [<-|Hne]; [by right|].
    left. by rewrite lookup_insert_ne.
Qed.

Lemma resolve_spec id v d st :
  exists st',
    pushSSE id "complete" d (store_set id v st).1 = (st', Ret tt) /\
    resultsStore st' =
      match id with
      | JStr k => <[k := v]> (resultsStore st)
      | _ => resultsStore st
      end /\
    subscribers st' = retire id "complete" (subscribers st) /\
    broken st' = broken st /\
    forall c,
      delivered st' c =
      delivered st c ++
        (if decide (c ∈ broken st) then []
         else replicate (registrations c (default [] (subs_get id st)))
                (complete_frame d)).
Proof.
  rewrite store_set_eq. cbn [fst].
  match goal with |- context [pushSSE id ?e d ?s0] =>
    destruct (pushSSE_spec id e d s0) as (st' & -> & Hr & _ & Hb & Hsub & Hd) end.
  exists st'. split; [done|]. destruct id; cbn in *; by rewrite ?Hr, ?Hsub, ?Hb.
Qed.

(** ** Resolved once, resolved for good *)

Lemma resolved_stays_resolved_step a st k :
  is_Some (resultsStore st !! k) ->
  is_Some (resultsStore (step a st) !! k).
Proof.
  apply (step_keeps (fun s => is_Some (resultsStore s !! k))).
  - intros res id s H. by rewrite attach_store.
  - intros res id s H.
    destruct (detach_spec res id s) as (s' & -> & Hr & _). cbn [fst].
    by rewrite Hr.
  - intros id v d s H.
    destruct (resolve_spec id v d s) as (s' & -> & Hr & _). cbn [fst].
    rewrite Hr. destruct id; try done. rewrite lookup_insert. by case_decide.
  - done.
Qed.

(** No step of the server removes a key from [resultsStore]: an id that is
    resolved stays resolved through every later run. *)
Theorem resolved_stays_resolved l st k :
  is_Some (resultsStore st !! k) ->
  is_Some (resultsStore (run_steps l st) !! k).
Proof.
  unfold run_steps. revert st. induction l as [|a l IH]; intros st H; [done|].
  cbn [foldl]. by apply IH, resolved_stays_resolved_step.
Qed.

Lemma resolved_stays_resolved_witness :
  is_Some (resultsStore
             (run_steps [DoClose (Some "j") 1; DoStatus (Some "j,k") AxiosRejected;
                         DoCallback (webhook (JStr "k") (JArr []))] resolved_j)
           !! "j").
Proof.
  apply (resolved_stays_resolved _ resolved_j "j"). by eexists.
Defined.

(** ** A resolved id has no listeners *)

(** In every state a run can reach, an id that is in [resultsStore] has no
    entry in [subscribers]: no response is left waiting for an id that has
    its record. *)
Theorem resolved_id_has_no_listeners st k :
  reachable st ->
  is_Some (resultsStore st !! k) -> subscribers st !! k = None.
Proof.
  intros Hreach. revert k.
  apply (reachable_keeps
           (fun s => forall k, is_Some (resultsStore s !! k) ->
                               subscribers s !! k = None)); try done.
  - intros res id s H k. rewrite attach_store. intros Hk.
    destruct (attach_subscribers res id s k) as [->|Hn]; [by apply H|].
    rewrite Hn in Hk. by destruct Hk.
  - intros res id s H k.
    destruct (detach_spec res id s) as (s' & -> & Hr & _ & _ & _ & Hsub).
    cbn [fst]. rewrite Hr. intros Hk. rewrite Hsub.
    destruct (decide (id = k)) as [->|]; [|by apply H].
    by rewrite (H k Hk).
  - intros id v d s H k.
    destruct (resolve_spec id v d s) as (s' & -> & Hr & Hsub & _). cbn [fst].
    rewrite Hr, Hsub. destruct id; cbn; try apply H.
    destruct (decide (s0 = k)) as [->|Hne].
    + intros _. apply lookup_delete_eq.
    + rewrite lookup_insert_ne, lookup_delete_ne by done. apply H.
Qed.

Lemma resolved_id_has_no_listeners_witness :
  subscribers
    (step (DoCallback (webhook (JStr "j") (JArr [song])))
       (step (DoEvents (Some "j") 7) initial)) !! "j" = None.
Proof.
  apply resolved_id_has_no_listeners.
  - apply reach_step, reach_step, reach_initial.
  - by eexists.
Defined.

(** ** Only [complete] frames *)

(** In every state a run can reach, every frame written to any response is
    a [complete] event. *)
Theorem only_complete_frames st c f :
  reachable st -> f ∈ delivered st c -> event f = "complete".
Proof.
  intros Hreach. revert c f.
  apply (reachable_keeps
           (fun s => forall c f, f ∈ delivered s c -> event f = "complete"));
    try done.
  - intros res id s H c f. unfold attach, bind, gets.
    destruct (resultsStore s !! id) as [rec|]; [|by apply H].
    unfold res_write. destruct (decide (res ∈ broken s)); [by apply H|].
    cbn [fst]. rewrite delivered_write.
    destruct (decide (res = c)) as [->|]; [|by apply H].
    intros [Hin| ->%list_elem_of_singleton]%elem_of_app; [by eapply H | done].
  - intros res id s H c f.
    destruct (detach_spec res id s) as (s' & -> & _ & _ & Hw & _).
    cbn [fst]. unfold delivered. rewrite Hw. apply H.
  - intros id v d s H c f.
    destruct (resolve_spec id v d s) as (s' & -> & _ & _ & _ & Hd).
    cbn [fst]. rewrite Hd.
    intros [Hin|Hin]%elem_of_app; [by eapply H|].
    destruct (decide (c ∈ broken s)); [by apply elem_of_nil in Hin|].
    by apply elem_of_replicate in Hin as [-> _].
  - intros c f H. unfold delivered, initial in H. cbn [wire] in H.
    rewrite lookup_empty in H. by apply elem_of_nil in H.
Qed.

Lemma only_complete_frames_witness :
  event (complete_frame (callback_push [song])) = "complete".
Proof.
  apply (only_complete_frames
           (step (DoCallback (webhook (JStr "j") (JArr [song])))
              (step (DoEvents (Some "j") 7) initial))
           7 (complete_frame (callback_push [song]))).
  - apply reach_step, reach_step, reach_initial.
  - vm_compute. apply elem_of_cons. by left.
Defined.

(** ** Attach, then close *)

Lemma filter_replicate_self (res : conn) (n : nat) :
  filter (fun r => r ≠ res) (replicate n res) = [].
Proof.
  induction n as [|n IH]; [done|]. cbn [replicate].
  by rewrite filter_cons_False by (intros H; by apply H).
Qed.

Lemma prune_enrolled res n old :
  (forall arr, old = Some arr -> arr <> [] /\ (res ∉ arr)) ->
  prune res (enrol res (S n) old) = old.
Proof.
  intros Hold. cbn [enrol prune].
  rewrite filter_app, filter_replicate_self, app_nil_r.
  destruct old as [arr|]; cbn; [|done].
  destruct (Hold arr eq_refl) as [Hne Hin].
  rewrite filter_absent by done. by destruct arr.
Qed.

Lemma times_positive id ids : id ∈ ids -> exists n, times id ids = S n.
Proof.
  intros Hin. apply list_elem_of_In in Hin.
  apply (count_occ_In String.string_dec) in Hin. unfold times.
  destruct (count_occ String.string_dec ids id); [lia | eauto].
Qed.

Lemma times_zero id ids : id ∉ ids -> times id ids = 0.
Proof.
  intros Hin. apply (count_occ_not_In String.string_dec).
  by rewrite <- list_elem_of_In.
Qed.

(** A request that attaches on a response not yet registered under its ids
    and then closes leaves [subscribers] and [resultsStore] exactly as it
    found them. *)
Theorem attach_then_close_restores q res st :
  reachable st -> res ∉ broken st ->
  (forall id arr,
     id ∈ parse_ids q -> subscribers st !! id = Some arr -> res ∉ arr) ->
  subscribers (on_close q res (events q res st).1) = subscribers st /\
  resultsStore (on_close q res (events q res st).1) = resultsStore st.
Proof.
  intros Hreach Hopen Hfresh.
  pose proof (reachable_tidy st Hreach) as Htidy.
  destruct (parse_ids q) as [|id0 ids0] eqn:Hq.
  { rewrite events_no_ids by done. unfold on_close. by rewrite Hq. }
  assert (parse_ids q <> []) as Hne by by rewrite Hq.
  rewrite <- Hq in *. clear Hq id0 ids0.
  rewrite events_attaches by done.
  destruct (attach_loop_spec res (parse_ids q) st Hopen)
    as (st1 & Hrun1 & Hr1 & _ & _ & _ & Hsub1).
  rewrite Hrun1. cbn [fst]. unfold on_close.
  destruct (detach_loop_spec res (parse_ids q) st1)
    as (st2 & Hrun2 & Hr2 & _ & _ & _ & Hsub2).
  rewrite Hrun2. cbn [fst]. split; [|congruence].
  apply map_eq. intros id. rewrite Hsub2, Hsub1.
  destruct (decide (id ∈ parse_ids q)) as [Hin|Hin].
  - destruct (resolved (resultsStore st) id).
    + destruct (subscribers st !! id) as [arr|] eqn:Harr; [|done].
      apply prune_absent; [by eapply Htidy | by eapply Hfresh].
    + destruct (times_positive id _ Hin) as [n ->].
      apply prune_enrolled. intros arr Harr. split.
      * by eapply Htidy.
      * by eapply Hfresh.
  - rewrite times_zero by done. cbn. by destruct (resolved (resultsStore st) id).
Qed.

Lemma attach_then_close_restores_witness :
  let st := step (DoEvents (Some "k") 3) resolved_j in
  subscribers (on_close (Some "j,k,m") 7 (events (Some "j,k,m") 7 st).1)
    = subscribers st /\
  resultsStore (on_close (Some "j,k,m") 7 (events (Some "j,k,m") 7 st).1)
    = resultsStore st.
Proof.
  apply (attach_then_close_restores (Some "j,k,m") 7
           (step (DoEvents (Some "k") 3) resolved_j)).
  - apply reach_step. unfold resolved_j. apply (reach_step (DoCallback _)).
    apply reach_initial.
  - intros H. vm_compute in H. discriminate H.
  - intros id arr _ Harr Hin.
    destruct (decide (id = "k")) as [->|Hne].
    + vm_compute in Harr. injection Harr as <-.
      apply list_elem_of_singleton in Hin. discriminate Hin.
    + change (subscribers (step (DoEvents (Some "k") 3) resolved_j))
        with (<["k" := [3]]> (∅ : gmap string (list conn))) in Harr.
      rewrite lookup_insert_ne, lookup_empty in Harr by done. discriminate Harr.
Defined.

(** ** One webhook, two frames *)

(** For one accepted webhook, a response that was waiting under the id is
    written the whole clip array wrapped as [{ data: { data: [clips] } }],
    while a response that attaches afterwards is written the stored record,
    which is the first clip alone. *)
Theorem waiting_and_late_frames payload l k c res st :
  clips_of payload = JArr l -> callback_id payload = Some (JStr k) ->
  k <> "" -> subscribers st !! k = Some [c] ->
  c ∉ broken st -> res ∉ broken st ->
  let st1 := (callback payload st).1 in
  delivered st1 c = delivered st c ++ [complete_frame (callback_push l)] /\
  delivered (attach res k st1).1 res =
    delivered st1 res ++ [complete_frame (first_item l)].
Proof.
  intros Hc Hi Hk Hsubs Hc_open Hres_open. cbn zeta.
  rewrite (callback_resolves payload l k st Hc Hi Hk). cbn [fst].
  destruct (pushSSE_spec (JStr k) "complete" (callback_push l)
              (with_results (insert k (first_item l)) st))
    as (st1 & -> & Hr & _ & Hb & _ & Hd).
  cbn [fst]. cbn in Hr, Hb. split.
  - rewrite Hd. cbn. rewrite Hsubs. cbn.
    destruct (decide (c ∈ broken st)); [done|].
    unfold registrations. cbn. by destruct (Nat.eq_dec c c).
  - rewrite (attach_hit res k (first_item l))
      by (rewrite Hr; apply lookup_insert_eq).
    rewrite res_write_open by by rewrite Hb. cbn [fst].
    rewrite delivered_write. by rewrite decide_True.
Qed.

Lemma waiting_and_late_frames_witness :
  let st := (events (Some "j") 1 initial).1 in
  let st1 := (callback (webhook (JStr "j") (JArr [song])) st).1 in
  delivered st1 1 = delivered st 1 ++ [complete_frame (callback_push [song])] /\
  delivered (attach 2 "j" st1).1 2 =
    delivered st1 2 ++ [complete_frame (first_item [song])].
Proof.
  apply (waiting_and_late_frames (webhook (JStr "j") (JArr [song])) [song] "j"
           1 2 (events (Some "j") 1 initial).1);
    try reflexivity; try discriminate;
    intros H; vm_compute in H; discriminate H.
Defined.

(** What a webhook stores under an id is what [GET /status] then returns
    for it: the first clip is in [found], the id is not in [pending], the
    collaborator's answer does not matter for either, and the record is
    still in the store afterwards. *)
Theorem webhook_then_status payload l k q api st :
  clips_of payload = JArr l -> callback_id payload = Some (JStr k) ->
  k <> "" -> k ∈ parse_ids q ->
  let st1 := (callback payload st).1 in
  exists found pending,
    (status q api st1).2 = SendJson 200 (status_body found pending) /\
    first_item l ∈ found /\ (k ∉ pending) /\
    is_Some (resultsStore (status q api st1).1 !! k).
Proof.
  intros Hc Hi Hk Hin. cbn zeta.
  assert (parse_ids q <> []) as Hne.
  { intros Hnil. rewrite Hnil in Hin. by apply elem_of_nil in Hin. }
  assert (resultsStore (callback payload st).1 !! k = Some (first_item l))
    as Hstored.
  { rewrite (callback_resolves payload l k st Hc Hi Hk). cbn [fst].
    match goal with |- context [pushSSE ?i ?e ?d ?s0] =>
      destruct (pushSSE_spec i e d s0) as (st1 & -> & Hr & _) end.
    cbn [fst]. rewrite Hr. apply lookup_insert_eq. }
  set (st1 := (callback payload st).1) in *.
  eexists _, _. split; [by apply status_reply_eq|]. split; [|split].
  - apply elem_of_app. left. apply list_elem_of_omap. eauto.
  - unfold unresolved. rewrite list_elem_of_In, List.filter_In.
    intros [_ Hun]. unfold resolved in Hun. by rewrite Hstored in Hun.
  - apply (resolved_stays_resolved_step (DoStatus q api)). by rewrite Hstored.
Qed.

Lemma webhook_then_status_witness :
  let st1 := (callback (webhook (JStr "j") (JArr [song])) initial).1 in
  exists found pending,
    (status (Some "k, j") AxiosRejected st1).2
      = SendJson 200 (status_body found pending) /\
    first_item [song] ∈ found /\ ("j" ∉ pending) /\
    is_Some (resultsStore (status (Some "k, j") AxiosRejected st1).1 !! "j").
Proof.
  apply (webhook_then_status (webhook (JStr "j") (JArr [song])) [song] "j"
           (Some "k, j") AxiosRejected initial);
    try reflexivity; try discriminate.
  vm_compute. apply elem_of_cons. right. apply elem_of_cons. by left.
Defined.

(** ** More on [GET /status] *)

(** When every requested id is already in the store, the reply and the
    state do not depend on the collaborator at all: the state is unchanged
    and the reply is 200 with the stored records and an empty [pending]. *)
Theorem all_resolved_needs_no_query q api st :
  parse_ids q <> [] -> unresolved (resultsStore st) (parse_ids q) = [] ->
  status q api st =
    (st, SendJson 200
           (status_body (known_records (resultsStore st) (parse_ids q)) [])).
Proof.
  intros Hne Hun. unfold status, status_begin.
  destruct (parse_ids q) as [|id ids] eqn:Hq; [done|].
  cbn [List.length Nat.eqb]. rewrite partition_ids_eq, Hun. done.
Qed.

Lemma all_resolved_needs_no_query_witness :
  status (Some "a") (AxiosResolved (JArr [clip_of "a" "other"])) resolved_a =
    (resolved_a,
     SendJson 200
       (status_body
          (known_records (resultsStore resolved_a) (parse_ids (Some "a"))) [])).
Proof.
  apply (all_resolved_needs_no_query (Some "a")
           (AxiosResolved (JArr [clip_of "a" "other"])) resolved_a).
  - vm_compute. discriminate.
  - reflexivity.
Defined.

(** A clip that the reconciliation finds complete is written, bare, to
    every open response waiting under its id, once per registration; the
    entry of the id is deleted and the clip is pushed onto [found]. *)
Theorem reconciliation_reaches_listeners st k clip subs c found pending :
  pending <> [] -> member clip "status" = Some (JStr "complete") ->
  clip_id clip = Some (JStr k) -> k <> "" ->
  subscribers st !! k = Some subs -> c ∉ broken st ->
  let r := status_end found pending (AxiosResolved (JArr [clip])) st in
  delivered r.1 c =
    delivered st c ++ replicate (registrations c subs) (complete_frame clip) /\
  subscribers r.1 !! k = None /\
  r.2 = found ++ [clip].
Proof.
  intros Hp Hs Hid Hk Hsubs Hopen. cbn zeta.
  assert (truthy (JStr k) = true) as Ht.
  { cbn. apply negb_true_iff. by apply String.eqb_neq. }
  unfold status_end. destruct pending as [|p pending]; [done|].
  cbn [List.length Nat.ltb Nat.leb]. unfold try_, status_query.
  cbn [clip_list forEach fst].
  erewrite bind_ret; [|by eapply backfill_reported].
  cbn [ret fst snd].
  destruct (resolve_spec (JStr k) clip clip st)
    as (st' & -> & _ & Hsub & _ & Hd).
  cbn [fst]. split; [|split; [|done]].
  - rewrite Hd. cbn [subs_get]. rewrite Hsubs. cbn.
    by destruct (decide (c ∈ broken st)).
  - rewrite Hsub. cbn. apply lookup_delete_eq.
Qed.

Lemma reconciliation_reaches_listeners_witness :
  let st := (events (Some "b") 5 resolved_a).1 in
  let r := status_end [clip_of "a" "A"] ["b"]
             (AxiosResolved (JArr [clip_of "b" "B"])) st in
  delivered r.1 5 =
    delivered st 5 ++
      replicate (registrations 5 [5]) (complete_frame (clip_of "b" "B")) /\
  subscribers r.1 !! "b" = None /\
  r.2 = [clip_of "a" "A"] ++ [clip_of "b" "B"].
Proof.
  apply (reconciliation_reaches_listeners (events (Some "b") 5 resolved_a).1
           "b" (clip_of "b" "B") [5] 5 [clip_of "a" "A"] ["b"]);
    try reflexivity; discriminate.
Defined.

(** An answer in which no clip, up to the first [null], is complete under a
    usable id changes nothing: the state and [found] stay as they were. *)
Theorem unfinished_clips_change_nothing found pending l st :
  Forall (fun clip => reported clip = false) (heard l) ->
  status_end found pending (AxiosResolved (JArr l)) st = (st, found).
Proof.
  intros Hl. unfold status_end.
  destruct (Nat.ltb 0 (List.length pending)); [|done].
  unfold try_, status_query. cbn [clip_list].
  assert (forall s, (forEach backfill l s).1 = s) as Hloop.
  { induction l as [|clip l IH]; intros [s fnd]; [done|].
    cbn [forEach heard] in *. destruct (nullish clip) eqn:Hn.
    - by rewrite (bind_exn _ _ _ _ (backfill_null clip s fnd Hn)).
    - apply Forall_cons in Hl as [Hclip Hl].
      rewrite (bind_ret _ _ _ _ _ (backfill_skipped clip s fnd Hn Hclip)).
      by apply IH. }
  by rewrite Hloop.
Qed.

Lemma unfinished_clips_change_nothing_witness :
  status_end [] ["b"]
    (AxiosResolved
       (JArr [JObj [("id", JStr "b"); ("status", JStr "streaming")];
              JObj [("status", JStr "complete")]; JNull;
              clip_of "b" "B"]))
    resolved_a
  = (resolved_a, []).
Proof.
  apply (unfinished_clips_change_nothing [] ["b"]).
  repeat constructor.
Defined.

(** ** More on [pushSSE] *)

(** [pushSSE] never touches [resultsStore], and the only entry of
    [subscribers] it can change is the one of its own id, and that only for
    the [complete] event. *)
Theorem pushSSE_frame id ev d st k :
  ev <> "complete" \/ id <> JStr k ->
  subscribers (pushSSE id ev d st).1 !! k = subscribers st !! k /\
  resultsStore (pushSSE id ev d st).1 = resultsStore st.
Proof.
  intros Hcase.
  destruct (pushSSE_spec id ev d st) as (st' & -> & Hr & _ & _ & Hsub & _).
  cbn [fst]. split; [|done]. rewrite Hsub. unfold retire.
  destruct id as [| | | |k'| |]; try done.
  destruct (String.eqb ev "complete") eqn:Hev; [|done].
  apply String.eqb_eq in Hev. destruct Hcase as [?|Hne]; [done|].
  rewrite lookup_delete_ne; [done|]. congruence.
Qed.

Lemma pushSSE_frame_witness :
  subscribers (pushSSE (JStr "j") "progress" song middle_broken).1 !! "j"
    = subscribers middle_broken !! "j" /\
  resultsStore (pushSSE (JStr "j") "progress" song middle_broken).1
    = resultsStore middle_broken.
Proof.
  apply (pushSSE_frame (JStr "j") "progress" song middle_broken "j").
  left. discriminate.
Defined.

(** * The other routes of the backend *)

(** ** Start-up *)

Lemma present_some o : present o = true -> exists s, o = Some s /\ s <> "".
Proof.
  destruct o as [s|]; cbn; [|done]. intros H. exists s. split; [done|].
  intros ->. done.
Qed.

(** The server starts listening exactly when the Gemini key, the Suno key
    and the public base URL are all set to non-empty strings, and then runs
    with exactly those; without a Gemini key the process exits with code 1
    whatever else is set. *)
Theorem boot_listens_iff env :
  (present (env_GEMINI_API_KEY env) = false -> boot env = Exited 1) /\
  ((exists cfg, boot env = Listening cfg) <->
   present (env_GEMINI_API_KEY env) = true /\
   present (env_SUNO_API_KEY env) = true /\
   present (env_PUBLIC_BASE_URL env) = true) /\
  (forall cfg,
     boot env = Listening cfg ->
     env_GEMINI_API_KEY env = Some (gemini_api_key cfg) /\
     env_SUNO_API_KEY env = Some (suno_api_key cfg) /\
     env_PUBLIC_BASE_URL env = Some (public_base_url cfg) /\
     gemini_api_key cfg <> "" /\ suno_api_key cfg <> "" /\
     public_base_url cfg <> "").
Proof.
  unfold boot.
  destruct (present (env_GEMINI_API_KEY env)) eqn:Hg; cbn [negb];
    [|split; [done|split; [split; [by intros [? ?] | by intros [? _]] | done]]].
  destruct (present (env_SUNO_API_KEY env)) eqn:Hs; cbn [negb];
    [|split; [done|split; [split; [by intros [? ?] | by intros (_ & ? & _)] | done]]].
  destruct (present (env_PUBLIC_BASE_URL env)) eqn:Hb; cbn [negb];
    [|split; [done|split; [split; [by intros [? ?] | by intros (_ & _ & ?)] | done]]].
  split; [done|]. split; [split; [done | eauto]|].
  intros cfg [= <-]. cbn.
  apply present_some in Hg as (g & -> & ?), Hs as (s & -> & ?),
    Hb as (b & -> & ?).
  done.
Qed.

(** ** [POST /api/chat] *)

Lemma chat_eq body g : chat body g = chat_outcome body g.
Proof.
  unfold chat, run, chat_handler, chat_outcome, catch.
  destruct (member body "message") as [m|]; cbn [access]; [|done].
  unfold bind at 1. unfold ret at 1.
  destruct (truthy m); cbn [negb]; [|done].
  unfold bind at 1. unfold to_text.
  destruct (printable m); cbn [negb]; [|done].
  unfold ret at 1. unfold bind, generate_text. by destruct g.
Qed.

(** [POST /api/chat] always answers, with 200, 400 or 500; it asks Gemini
    at most once, and only with a truthy, printable [message]; and a 200
    carries the text Gemini returned for that message. *)
Theorem chat_always_answers body g :
  (exists code b,
     (chat body g).2 = SendJson code b /\
     (code = 200 \/ code = 400 \/ code = 500)) /\
  (forall c, c ∈ (chat body g).1 ->
     exists m,
       (chat body g).1 = [AskGemini (ChatWith m)] /\
       member body "message" = Some m /\
       truthy m = true /\ printable m = true) /\
  (forall b, (chat body g).2 = SendJson 200 b ->
     exists m t,
       (chat body g).1 = [AskGemini (ChatWith m)] /\
       g = GeminiText t /\ b = JObj [("reply", JStr t)]).
Proof.
  rewrite chat_eq. unfold chat_outcome, json_error.
  destruct (member body "message") as [m|]; cbn [fst snd].
  2:{ split; [eauto 6|]. split; [by intros c ?%elem_of_nil | done]. }
  destruct (truthy m) eqn:Ht; cbn [negb fst snd].
  2:{ split; [eauto 6|]. split; [by intros c ?%elem_of_nil | done]. }
  destruct (printable m) eqn:Hp; cbn [negb fst snd].
  2:{ split; [eauto 6|]. split; [by intros c ?%elem_of_nil | done]. }
  destruct g as [|t]; cbn [fst snd].
  - split; [eauto 6|]. split; [eauto 6 | done].
  - split; [eauto 6|]. split; [eauto 6|]. intros b [= <-]. eauto.
Qed.

(** ** [POST /generate-from-emotion] *)

Lemma conversation_line_eq m (log : list Call) :
  conversation_line m log = (log, if line_ok m then Ret tt else Exn).
Proof.
  unfold conversation_line, line_ok, opt_member, to_text.
  destruct m; cbn; try done.
  unfold bind, ret, throw.
  destruct (printable (field "sender" fields)); cbn; [|done].
  by destruct (printable (field "text" fields)).
Qed.

Lemma conversation_lines_eq ms (log : list Call) :
  forEach conversation_line ms log =
    (log, if forallb line_ok ms then Ret tt else Exn).
Proof.
  induction ms as [|m ms IH]; [done|]. cbn [forEach forallb].
  unfold bind. rewrite conversation_line_eq.
  destruct (line_ok m); [by rewrite IH | done].
Qed.

Lemma generate_eq cfg body g suno :
  generate cfg body g suno = generate_outcome cfg body g suno.
Proof.
  unfold generate, run, generate_handler, generate_outcome.
  destruct (member body "messages") as [messages|] eqn:Hm; cbn [access];
    [|done].
  unfold bind at 1. unfold ret at 1.
  assert (member body "make_instrumental"
          = Some (opt_member body "make_instrumental")) as ->.
  { unfold opt_member. destruct body; cbn in *; done. }
  cbn [access]. unfold bind at 1. unfold ret at 1.
  destruct messages as [| | | | |ms|]; try done.
  unfold bind at 1. unfold analyzeConversationForPrompt.
  unfold bind at 1. rewrite conversation_lines_eq.
  destruct (forallb line_ok ms); [|done].
  unfold generate_text at 1. cbn [app].
  destruct g as [|t]; [done|].
  unfold catch, bind, axios_post. cbn [app].
  destruct suno as [|r]; [done|].
  by destruct (truthy (suno_task_id r)).
Qed.

(** The handler ends without sending any reply exactly when the body is
    [null]/[undefined], or [messages] is an array and either some entry has
    no buildable line or Gemini fails.  A Suno failure never does that. *)
Theorem generate_sends_nothing_iff cfg body g suno :
  (generate cfg body g suno).2 = Uncaught <->
  member body "messages" = None \/
  exists ms,
    member body "messages" = Some (JArr ms) /\
    (forallb line_ok ms = false \/ g = GeminiFailed).
Proof.
  rewrite generate_eq. unfold generate_outcome, json_error.
  destruct (member body "messages") as [messages|]; [|by split; [left|]].
  destruct messages as [| | | | |ms|];
    try (split; [done | by intros [?|(ms & ? & _)]]).
  destruct (forallb line_ok ms) eqn:Hok.
  - destruct g as [|t]; cbn [snd].
    + split; [|done]. intros _. right. exists ms. auto.
    + destruct suno as [|r]; [|destruct (truthy (suno_task_id r))]; cbn [snd];
        (split; [done|]);
        by intros [?|(ms' & [= <-] & [?|?])]; congruence.
  - cbn [snd]. split; [|done]. intros _. right. exists ms. auto.
Qed.

(** A 200 from [POST /generate-from-emotion] means: Gemini was asked once
    for the theme of the given messages, then Suno was posted one request
    carrying that theme as prompt and the callback URL of this server, its
    answer held a truthy task id (the nested [data.taskId] if truthy, else
    the outer [taskId]), and the reply is [{ clipIds: [id], prompt }]. *)
Theorem generate_success_shape cfg body g suno b :
  (generate cfg body g suno).2 = SendJson 200 b ->
  exists ms t r,
    member body "messages" = Some (JArr ms) /\
    g = GeminiText t /\ suno = AxiosResolved r /\
    truthy (suno_task_id r) = true /\
    b = JObj [("clipIds", JArr [suno_task_id r]); ("prompt", JStr t)] /\
    (generate cfg body g suno).1 =
      [AskGemini (ThemeOf ms);
       PostSuno generate_url
         (generate_request t (opt_member body "make_instrumental")
            (callback_url (public_base_url cfg)))
         (suno_api_key cfg)].
Proof.
  rewrite generate_eq. unfold generate_outcome, json_error.
  destruct (member body "messages") as [messages|]; [|done].
  destruct messages as [| | | | |ms|]; try done.
  destruct (forallb line_ok ms); [|done].
  destruct g as [|t]; [done|].
  destruct suno as [|r]; [done|].
  destruct (truthy (suno_task_id r)) eqn:Ht; [|done].
  cbn [fst snd]. intros [= <-]. eauto 10.
Qed.

Lemma generate_success_shape_witness :
  exists ms t r,
    member sample_chat "messages" = Some (JArr ms) /\
    GeminiText "a gentle piano piece" = GeminiText t /\
    sample_started = AxiosResolved r /\
    truthy (suno_task_id r) = true /\
    JObj [("clipIds", JArr [JStr "abc123"]);
          ("prompt", JStr "a gentle piano piece")]
      = JObj [("clipIds", JArr [suno_task_id r]); ("prompt", JStr t)] /\
    (generate sample_config sample_chat (GeminiText "a gentle piano piece")
       sample_started).1 =
      [AskGemini (ThemeOf ms);
       PostSuno generate_url
         (generate_request t (opt_member sample_chat "make_instrumental")
            (callback_url (public_base_url sample_config)))
         (suno_api_key sample_config)].
Proof.
  apply (generate_success_shape sample_config sample_chat
           (GeminiText "a gentle piano piece") sample_started).
  reflexivity.
Defined.

(** Suno is posted to exactly when [messages] is an array whose every line
    can be built and Gemini returned a theme; whenever it was posted to, the
    handler answers (200 or 500), also when the answer was lost or held no
    task id. *)
Theorem suno_posted_iff cfg body g suno :
  ((exists url b k, PostSuno url b k ∈ (generate cfg body g suno).1) <->
   exists ms t,
     member body "messages" = Some (JArr ms) /\
     forallb line_ok ms = true /\ g = GeminiText t) /\
  ((exists url b k, PostSuno url b k ∈ (generate cfg body g suno).1) ->
   exists code b,
     (generate cfg body g suno).2 = SendJson code b /\
     (code = 200 \/ code = 500)).
Proof.
  rewrite generate_eq. unfold generate_outcome, json_error.
  assert (forall url b k p, PostSuno url b k ∈ [AskGemini p] -> False) as Hno.
  { intros url b k p H%list_elem_of_singleton. discriminate H. }
  destruct (member body "messages") as [messages|].
  2:{ split; [split|]; [by intros (? & ? & ? & ?%elem_of_nil)
                        | by intros (? & ? & ? & _)
                        | by intros (? & ? & ? & ?%elem_of_nil)]. }
  destruct messages as [| | | | |ms|];
    try (split; [split|]; [by intros (? & ? & ? & ?%elem_of_nil)
                          | by intros (? & ? & ? & _)
                          | by intros (? & ? & ? & ?%elem_of_nil)]).
  destruct (forallb line_ok ms) eqn:Hok.
  2:{ split; [split|]; [by intros (? & ? & ? & ?%elem_of_nil)
                        | intros (? & ? & [= <-] & ? & _); congruence
                        | by intros (? & ? & ? & ?%elem_of_nil)]. }
  destruct g as [|t].
  { cbn [fst snd]. split; [split|].
    - intros (? & ? & ? & H). by apply Hno in H.
    - by intros (? & ? & _ & _ & ?).
    - intros (? & ? & ? & H). by apply Hno in H. }
  assert (exists url b k,
            PostSuno url b k ∈
              [AskGemini (ThemeOf ms);
               PostSuno generate_url
                 (generate_request t (opt_member body "make_instrumental")
                    (callback_url (public_base_url cfg)))
                 (suno_api_key cfg)]) as Hin.
  { eexists _, _, _. apply elem_of_cons. right. apply elem_of_cons. by left. }
  destruct suno as [|r]; [|destruct (truthy (suno_task_id r))]; cbn [fst snd];
    (split; [split; [eauto | done] | eauto 6]).
Qed.

(** ** The callback URL *)

Lemma strip_slash_cons c s :
  s <> "" -> strip_slash (String c s) = String c (strip_slash s).
Proof. by destruct s. Qed.

Lemma strip_slash_keeps s : ends_with_slash s = false -> strip_slash s = s.
Proof.
  induction s as [|c s IH]; [done|].
  destruct s as [|c' s'].
  - cbn. by intros ->.
  - intros H. rewrite strip_slash_cons by done. by rewrite IH.
Qed.

Lemma strip_slash_drops s : strip_slash (String.append s "/") = s.
Proof.
  induction s as [|c s IH]; [done|].
  change (strip_slash (String c (String.append s "/")) = String c s).
  rewrite strip_slash_cons; [by rewrite IH|].
  by destruct s.
Qed.

(** A base URL gives the same callback URL with or without one trailing
    slash: [base + "/suno/callback"], with no doubled slash at the seam. *)
Theorem callback_url_trailing_slash base :
  ends_with_slash base = false ->
  callback_url base = String.append base "/suno/callback" /\
  callback_url (String.append base "/") = String.append base "/suno/callback".
Proof.
  intros H. unfold callback_url.
  by rewrite strip_slash_drops, strip_slash_keeps.
Qed.

Lemma callback_url_trailing_slash_witness :
  callback_url "https://example.ngrok.app"
    = String.append "https://example.ngrok.app" "/suno/callback" /\
  callback_url (String.append "https://example.ngrok.app" "/")
    = String.append "https://example.ngrok.app" "/suno/callback".
Proof.
  apply (callback_url_trailing_slash "https://example.ngrok.app").
  reflexivity.
Defined.

(** * The client *)

(** ** The [complete] listener *)

Lemma to_text_eq {S} (v : JsVal) (s : S) :
  to_text v s = (s, if printable v then Ret tt else Exn).
Proof. unfold to_text. by destruct (printable v). Qed.

Lemma title_or_id_member clip t :
  title_or_id clip = Some t -> exists u, member clip "stream_audio_url" = Some u.
Proof. destruct clip; cbn; try done; eauto. Qed.

Lemma on_complete_eq ev_data c :
  on_complete ev_data c =
    (stop_generating
       (close_stream
          (match song_of ev_data with
           | Some m => show m (clear_timer c)
           | None => clear_timer c
           end)), Ret tt).
Proof.
  unfold on_complete.
  assert (forall c1 r,
            (modify close_stream;;; modify stop_generating) c1 = r ->
            r = (stop_generating (close_stream c1), Ret tt)) as Hend
    by by intros c1 r <-.
  unfold bind at 1. unfold try_.
  match goal with |- context [fst ?x] =>
    assert (fst x = match song_of ev_data with
                    | Some m => show m (clear_timer c)
                    | None => clear_timer c
                    end) as -> end; [|done].
  unfold bind at 1. unfold modify at 1. unfold song_of.
  destruct ev_data as [payload|]; cbn [access]; [|done].
  unfold bind at 1. unfold ret at 1.
  destruct (clips_of payload) as [| | | | |[|group rest]|]; try done.
  destruct (item0 group) as [clip|]; cbn [access]; [|done].
  unfold bind at 1. unfold ret at 1.
  destruct (title_or_id clip) as [title|] eqn:Ht; cbn [access]; [|done].
  destruct (title_or_id_member clip title Ht) as [url ->]. cbn [access].
  unfold bind at 1. unfold ret at 1.
  unfold bind at 1. rewrite to_text_eq.
  destruct (printable title); cbn [andb]; [|done].
  unfold bind at 1. unfold ret at 1.
  unfold bind at 1. rewrite to_text_eq.
  by destruct (printable url).
Qed.

(** Whatever a [complete] event carries, the listener closes the stream,
    clears the timer and stops the spinner; it adds at most one message, a
    song line from the bot, and starts no polling. *)
Theorem listener_always_settles ev_data c :
  let c' := (on_complete ev_data c).1 in
  streamOpen c' = false /\ timerArmed c' = false /\
  isGeneratingMusic c' = false /\
  requests c' = requests c /\ slept c' = slept c /\
  (messages c' = messages c \/
   exists title url,
     messages c' =
       messages c ++ [{| text := SongLine title; sender := Bot;
                         audioUrl := AudioMp3 url |}]).
Proof.
  cbn zeta. rewrite on_complete_eq. cbn [fst].
  destruct (song_of ev_data) as [m|] eqn:Hs; cbn; repeat split; try done;
    [|by left].
  right. unfold song_of in Hs.
  destruct ev_data as [payload|]; [|done].
  destruct (clips_of payload) as [| | | | |[|group rest]|]; try done.
  destruct (item0 group) as [clip|]; [|done].
  destruct (title_or_id clip) as [title|]; [|done].
  destruct (member clip "stream_audio_url") as [url|]; [|done].
  destruct (printable title && printable url); [|done].
  injection Hs as <-. eauto.
Qed.

Lemma listener_settles_flags ev_data c :
  streamOpen (on_complete ev_data c).1 = false /\
  timerArmed (on_complete ev_data c).1 = false /\
  isGeneratingMusic (on_complete ev_data c).1 = false.
Proof.
  rewrite on_complete_eq. cbn [fst]. by destruct (song_of ev_data).
Qed.

(** ** Either the stream or the poll *)

Lemma show_all_fields ms c :
  messages (show_all ms c) = messages c ++ ms /\
  isGeneratingMusic (show_all ms c) = isGeneratingMusic c /\
  streamOpen (show_all ms c) = streamOpen c /\
  timerArmed (show_all ms c) = timerArmed c /\
  requests (show_all ms c) = requests c /\
  slept (show_all ms c) = slept c.
Proof.
  unfold show_all. revert c. induction ms as [|m ms IH]; intros c.
  - cbn. by rewrite app_nil_r.
  - cbn [foldl]. destruct (IH (show m c)) as (-> & -> & -> & -> & -> & ->).
    cbn. by rewrite <- app_assoc.
Qed.

Lemma poll_clip_eq clip c :
  poll_clip clip c =
    if showable clip then (show (poll_message clip) c, Ret tt) else (c, Exn).
Proof.
  unfold poll_clip, showable, poll_message.
  destruct (poll_title clip) as [t|]; cbn [access default]; [|done].
  unfold bind at 1. unfold ret at 1. unfold bind at 1. rewrite to_text_eq.
  by destruct (printable t).
Qed.

Lemma poll_clips_eq l c :
  forEach poll_clip l c =
    (show_all (poll_message <$> shown_prefix l) c,
     if forallb showable l then Ret tt else Exn).
Proof.
  revert c. induction l as [|clip l IH]; intros c; [done|].
  cbn [forEach shown_prefix forallb]. unfold bind. rewrite poll_clip_eq.
  destruct (showable clip); [|done]. by rewrite IH.
Qed.

(** One turn of the loop, with its [catch]. *)
Lemma poll_turn_eq f c :
  catch (poll_try f) (ret false) c =
    (let c' := show_all (poll_message <$> shown_prefix (found_clips f)) c in
     if succeeds f then stop_generating c' else c',
     Ret (succeeds f)).
Proof.
  unfold catch, succeeds, found_clips.
  destruct f as [| | |json]; cbn [poll_try]; try done.
  destruct (member json "found") as [found|]; cbn [access]; [|done].
  unfold bind at 1. unfold ret at 1.
  destruct found as [| | | |s|[|x l]|]; try done.
  - by destruct (nonempty s).
  - unfold bind at 1. rewrite poll_clips_eq.
    by destruct (forallb showable (x :: l)).
Qed.

Lemma poll_loop_step n i answers c :
  poll_loop (S n) i answers c =
    let c1 := show_all (poll_message <$> shown_prefix (found_clips (answers i)))
                (count_request c) in
    if succeeds (answers i) then (stop_generating c1, Ret tt)
    else poll_loop n (S i) answers (sleep 5000%N c1).
Proof.
  cbn [poll_loop]. unfold bind at 1. unfold modify at 1.
  unfold bind at 1. rewrite poll_turn_eq. cbn zeta.
  by destruct (succeeds (answers i)).
Qed.

Lemma poll_loop_bounds n i answers c :
  let r := poll_loop n i answers c in
  r.2 = Ret tt /\
  streamOpen r.1 = streamOpen c /\ timerArmed r.1 = timerArmed c /\
  isGeneratingMusic r.1 = false /\
  requests c <= requests r.1 <= requests c + n /\
  (slept r.1 <= slept c + 5000 * N.of_nat n)%N /\
  exists new, messages r.1 = messages c ++ new.
Proof.
  cbn zeta. revert i c. induction n as [|n IH]; intros i c.
  - cbn. repeat split; try lia; eauto.
  - rewrite poll_loop_step. cbn zeta.
    set (ms := poll_message <$> shown_prefix (found_clips (answers i))).
    destruct (show_all_fields ms (count_request c))
      as (Hm & Hg & Ho & Ha & Hr & Hs).
    destruct (succeeds (answers i)).
    + cbn [fst snd]. cbn in *. rewrite Ho, Ha, Hr, Hs, Hm.
      repeat split; try lia; eauto.
    + destruct (IH (S i) (sleep 5000%N (show_all ms (count_request c))))
        as (-> & -> & -> & -> & Hreq & Hsl & new & ->).
      cbn in *. rewrite Ho, Ha, Hr, Hs, Hm in *.
      repeat split; try lia. exists (ms ++ new). by rewrite app_assoc.
Qed.

Lemma poll_loop_flags n i answers c :
  streamOpen (poll_loop n i answers c).1 = streamOpen c /\
  timerArmed (poll_loop n i answers c).1 = timerArmed c.
Proof. destruct (poll_loop_bounds n i answers c) as (_ & ? & ? & _). done. Qed.

(** The stream and the poll exclude each other: once a [complete] event
    was handled, the timer does nothing when its time comes; once the timer
    has fired, no [complete] event is handled any more. *)
Theorem stream_or_poll_never_both ev_data answers c :
  fire_timeout answers (dispatch_complete ev_data c) =
    (if streamOpen c then dispatch_complete ev_data c
     else fire_timeout answers c) /\
  dispatch_complete ev_data (fire_timeout answers c) =
    (if timerArmed c then fire_timeout answers c
     else dispatch_complete ev_data c).
Proof.
  split.
  - unfold dispatch_complete at 1 2. destruct (streamOpen c) eqn:Ho; [|done].
    unfold fire_timeout.
    destruct (listener_settles_flags ev_data c) as (_ & -> & _). done.
  - unfold fire_timeout at 1 2. destruct (timerArmed c) eqn:Ha; [|done].
    unfold dispatch_complete, on_timeout, fallbackPoll.
    unfold bind at 1. unfold modify at 1.
    unfold bind at 1. unfold modify at 1.
    destruct (poll_loop_flags 30 0 answers (close_stream (clear_timer c)))
      as [-> _]. done.
Qed.

(** ** [fallbackPoll] *)

(** The poll always comes to an end without raising: it makes at most 30
    requests and sleeps at most 150 seconds in all, only adds messages, and
    leaves the spinner off. *)
Theorem poll_is_bounded answers c :
  let r := fallbackPoll answers c in
  r.2 = Ret tt /\
  isGeneratingMusic r.1 = false /\
  requests r.1 <= requests c + 30 /\
  (slept r.1 <= slept c + 150000)%N /\
  exists new, messages r.1 = messages c ++ new.
Proof.
  cbn zeta. unfold fallbackPoll.
  destruct (poll_loop_bounds 30 0 answers c)
    as (H1 & _ & _ & H2 & H3 & H4 & H5).
  repeat split; try done; lia.
Qed.

Lemma shown_prefix_all l : forallb showable l = true -> shown_prefix l = l.
Proof.
  induction l as [|x l IH]; [done|]. cbn.
  intros [-> H]%andb_true_iff. by rewrite IH.
Qed.

Lemma succeeds_all f :
  succeeds f = true -> shown_prefix (found_clips f) = found_clips f.
Proof.
  unfold succeeds. destruct (found_clips f) as [|x l]; [done|].
  apply shown_prefix_all.
Qed.

Lemma poll_loop_exhausted n i answers c :
  (forall j, i <= j < i + n -> succeeds (answers j) = false) ->
  let c' := (poll_loop n i answers c).1 in
  messages c' = messages c ++ stray_messages n i answers ++ [timeout_message] /\
  isGeneratingMusic c' = false /\
  requests c' = requests c + n /\
  slept c' = (slept c + 5000 * N.of_nat n)%N.
Proof.
  cbn zeta. revert i c. induction n as [|n IH]; intros i c Hfail.
  - cbn. repeat split; lia.
  - rewrite poll_loop_step. cbn zeta. rewrite Hfail by lia.
    set (ms := poll_message <$> shown_prefix (found_clips (answers i))).
    destruct (show_all_fields ms (count_request c))
      as (Hm & Hg & Ho & Ha & Hr & Hs).
    destruct (IH (S i) (sleep 5000%N (show_all ms (count_request c))))
      as (-> & -> & -> & ->); [intros j Hj; apply Hfail; lia|].
    cbn in *. rewrite Hm, Hr, Hs. cbn [stray_messages]. fold ms.
    repeat split; try lia. by rewrite <- !app_assoc.
Qed.

Lemma poll_loop_success k n i answers c :
  k < n ->
  (forall j, i <= j < i + k -> succeeds (answers j) = false) ->
  succeeds (answers (i + k)) = true ->
  let c' := (poll_loop n i answers c).1 in
  messages c' =
    messages c ++ stray_messages k i answers ++
      (poll_message <$> found_clips (answers (i + k))) /\
  isGeneratingMusic c' = false /\
  requests c' = requests c + S k /\
  slept c' = (slept c + 5000 * N.of_nat k)%N.
Proof.
  cbn zeta. revert n i c. induction k as [|k IH]; intros n i c Hlt Hfail Hok;
    (destruct n as [|n]; [lia|]); rewrite poll_loop_step; cbn zeta.
  - rewrite Nat.add_0_r in Hok. rewrite Hok, (succeeds_all _ Hok).
    rewrite Nat.add_0_r.
    set (ms := poll_message <$> found_clips (answers i)).
    destruct (show_all_fields ms (count_request c))
      as (Hm & Hg & Ho & Ha & Hr & Hs).
    cbn in *. rewrite Hm, Hr, Hs. repeat split; lia.
  - rewrite Hfail by lia.
    set (ms := poll_message <$> shown_prefix (found_clips (answers i))).
    destruct (show_all_fields ms (count_request c))
      as (Hm & Hg & Ho & Ha & Hr & Hs).
    replace (i + S k) with (S i + k) in * by lia.
    destruct (IH n (S i) (sleep 5000%N (show_all ms (count_request c))))
      as (-> & -> & -> & ->); [lia | intros j Hj; apply Hfail; lia | done |].
    cbn in *. rewrite Hm, Hr, Hs. cbn [stray_messages]. fold ms.
    repeat split; try lia. by rewrite <- !app_assoc.
Qed.

(** When none of the 30 turns finds a non-empty [found] whose clips can all
    be shown, the poll makes exactly 30 requests, sleeps 30 times 5 seconds
    (also after the last request), then adds the time-out message as the
    last message and turns the spinner off.  The clips a failing turn got
    to show before it failed stay shown, once per such turn. *)
Theorem poll_gives_up_after_30 answers c :
  (forall j, j < 30 -> succeeds (answers j) = false) ->
  let c' := (fallbackPoll answers c).1 in
  messages c' = messages c ++ stray_messages 30 0 answers ++ [timeout_message] /\
  isGeneratingMusic c' = false /\
  requests c' = requests c + 30 /\
  slept c' = (slept c + 150000)%N.
Proof.
  intros Hfail. cbn zeta. unfold fallbackPoll.
  destruct (poll_loop_exhausted 30 0 answers c) as (-> & -> & -> & ->);
    [intros j Hj; apply Hfail; lia | done].
Qed.

(** A reply whose [found] holds a showable clip and then a [null]: the
    turn shows the clip and fails, so 30 turns show it 30 times before the
    time-out message. *)
Lemma poll_gives_up_after_30_witness :
  let answers := fun _ : nat =>
    Json (JObj [("found", JArr [clip_of "a" "A"; JNull])]) in
  let c' := (fallbackPoll answers (waiting [])).1 in
  messages c' =
    messages (waiting []) ++ stray_messages 30 0 answers ++ [timeout_message] /\
  isGeneratingMusic c' = false /\
  requests c' = requests (waiting []) + 30 /\
  slept c' = (slept (waiting []) + 150000)%N.
Proof.
  apply (poll_gives_up_after_30
           (fun _ => Json (JObj [("found", JArr [clip_of "a" "A"; JNull])]))
           (waiting [])).
  intros j _. reflexivity.
Defined.

(** When turn [k] (counted from 0, [k < 30]) is the first to find a
    non-empty [found] whose clips can all be shown, the poll ends there: one
    song line per clip of that [found], in order, [k + 1] requests, [k]
    sleeps of 5 seconds, no time-out message, spinner off. *)
Theorem poll_stops_at_first_success k answers c :
  k < 30 ->
  (forall j, j < k -> succeeds (answers j) = false) ->
  succeeds (answers k) = true ->
  let c' := (fallbackPoll answers c).1 in
  messages c' =
    messages c ++ stray_messages k 0 answers ++
      (poll_message <$> found_clips (answers k)) /\
  isGeneratingMusic c' = false /\
  requests c' = requests c + S k /\
  slept c' = (slept c + 5000 * N.of_nat k)%N.
Proof.
  intros Hk Hfail Hok. cbn zeta. unfold fallbackPoll.
  destruct (poll_loop_success k 30 0 answers c) as (-> & -> & -> & ->);
    try done. intros j Hj. apply Hfail. lia.
Qed.

Lemma poll_stops_at_first_success_witness :
  let answers := fun j : nat =>
    if Nat.ltb j 2 then NotOk
    else Json (JObj [("found", JArr [clip_of "a" "A"]); ("pending", JArr [])]) in
  let c' := (fallbackPoll answers (waiting [])).1 in
  messages c' =
    messages (waiting []) ++ stray_messages 2 0 answers ++
      (poll_message <$> found_clips (answers 2)) /\
  isGeneratingMusic c' = false /\
  requests c' = requests (waiting []) + 3 /\
  slept c' = (slept (waiting []) + 5000 * N.of_nat 2)%N.
Proof.
  apply (poll_stops_at_first_success 2
           (fun j : nat =>
              if Nat.ltb j 2 then NotOk
              else Json (JObj [("found", JArr [clip_of "a" "A"]);
                               ("pending", JArr [])]))
           (waiting [])).
  - lia.
  - intros j Hj. destruct j as [|[|j]]; [reflexivity | reflexivity | lia].
  - reflexivity.
Defined.

(** * From the server to the chat window *)

(** ** What arrives *)

Lemma scrub_arr items : scrub (JArr items) = JArr (List.map wire_item items).
Proof. reflexivity. Qed.

Lemma scrub_obj fs : scrub (JObj fs) = JObj (wire_fields fs).
Proof. reflexivity. Qed.

Lemma wire_fields_cons k x fs :
  wire_fields ((k, x) :: fs) =
  match x with
  | JUndefined => wire_fields fs
  | _ => (k, scrub x) :: wire_fields fs
  end.
Proof. by destruct x. Qed.

Lemma field_wire_absent k fs :
  has_key k fs = false -> field k (wire_fields fs) = JUndefined.
Proof.
  induction fs as [|[k' x] fs IH]; [done|]. cbn [has_key].
  intros [Hk Hfs]%orb_false_iff. rewrite wire_fields_cons.
  destruct x; try (by apply IH); cbn [field]; rewrite Hk; by apply IH.
Qed.

Lemma on_wire_callback_push l :
  on_wire (callback_push l) =
    Some (JObj [("data", JObj [("data", JArr [JArr (List.map wire_item l)])])]).
Proof. reflexivity. Qed.

Lemma on_wire_status_body found pending :
  on_wire (status_body found pending) =
    Some (JObj [("found", JArr (List.map wire_item found));
                ("pending", scrub (JArr (JStr <$> pending)))]).
Proof. reflexivity. Qed.

Lemma found_clips_status_body found pending :
  found_clips (fetched_of 200 (status_body found pending)) =
    List.map wire_item found.
Proof. reflexivity. Qed.

(** ** A webhook becomes a song line *)

(** From the webhook to the chat window: a response waiting under the id is
    written one frame, and the listener that parses this frame shows the
    first clip of the webhook: its [title] (or [id]) in the song line and
    its [stream_audio_url] with [".mp3"] appended as the audio link. *)
Theorem webhook_to_song payload clip rest k conn st title url c :
  clips_of payload = JArr (clip :: rest) ->
  callback_id payload = Some (JStr k) -> k <> "" ->
  subscribers st !! k = Some [conn] -> conn ∉ broken st ->
  title_or_id (wire_item clip) = Some title -> printable title = true ->
  member (wire_item clip) "stream_audio_url" = Some url ->
  printable url = true ->
  exists f,
    delivered (callback payload st).1 conn = delivered st conn ++ [f] /\
    messages (on_complete (on_wire (data f)) c).1 =
      messages c ++ [{| text := SongLine title; sender := Bot;
                        audioUrl := AudioMp3 url |}].
Proof.
  intros Hc Hi Hk Hsubs Hopen Ht Hpt Hu Hpu.
  exists (complete_frame (callback_push (clip :: rest))). split.
  - rewrite (callback_resolves payload _ k st Hc Hi Hk). cbn [fst].
    match goal with |- context [pushSSE ?i ?e ?d ?s0] =>
      destruct (pushSSE_spec i e d s0) as (st1 & -> & _ & _ & _ & _ & Hd) end.
    cbn [fst]. rewrite Hd. cbn. rewrite Hsubs. cbn.
    destruct (decide (conn ∈ broken st)); [done|].
    unfold registrations. cbn. by destruct (Nat.eq_dec conn conn).
  - rewrite on_complete_eq. cbn [fst complete_frame data].
    rewrite on_wire_callback_push. unfold song_of.
    cbn [clips_of opt_member member field String.eqb Ascii.eqb Bool.eqb
         item0 first_item List.map].
    change (clips_of _) with
      (JArr [JArr (wire_item clip :: List.map wire_item rest)]).
    cbn [item0 first_item]. rewrite Ht, Hu, Hpt, Hpu. done.
Qed.

Lemma webhook_to_song_witness :
  exists f,
    delivered (callback (webhook (JStr "abc123") (JArr [song]))
                 (events (Some "abc123") 1 initial).1).1 1
      = delivered (events (Some "abc123") 1 initial).1 1 ++ [f] /\
    messages (on_complete (on_wire (data f)) (waiting [])).1 =
      messages (waiting []) ++
        [{| text := SongLine (JStr "Song"); sender := Bot;
            audioUrl := AudioMp3 (JStr "http://x/y") |}].
Proof.
  apply (webhook_to_song (webhook (JStr "abc123") (JArr [song])) song []
           "abc123" 1 (events (Some "abc123") 1 initial).1
           (JStr "Song") (JStr "http://x/y") (waiting []));
    try reflexivity; discriminate.
Defined.

(** ** A bare clip shows nothing *)

Lemma bare_clip_song fs :
  has_key "data" fs = false -> song_of (on_wire (JObj fs)) = None.
Proof.
  intros H. cbn [on_wire]. rewrite scrub_obj. unfold song_of, clips_of.
  cbn [opt_member member]. by rewrite (field_wire_absent _ _ H).
Qed.

(** A response that attaches after the webhook is written the stored first
    clip by itself.  When that clip is an object without a [data] entry,
    the listener that parses this frame shows no message, and still closes
    the stream, clears the timer and stops the spinner: the song is not
    shown and no polling will follow. *)
Theorem late_attach_shows_nothing payload fs rest k res st c :
  clips_of payload = JArr (JObj fs :: rest) ->
  callback_id payload = Some (JStr k) -> k <> "" ->
  res ∉ broken st -> has_key "data" fs = false ->
  let st1 := (callback payload st).1 in
  exists f,
    delivered (attach res k st1).1 res = delivered st1 res ++ [f] /\
    (on_complete (on_wire (data f)) c).1 =
      stop_generating (close_stream (clear_timer c)).
Proof.
  intros Hc Hi Hk Hopen Hdata. cbn zeta. exists (complete_frame (JObj fs)).
  split.
  - rewrite (callback_resolves payload _ k st Hc Hi Hk). cbn [fst first_item].
    match goal with |- context [pushSSE ?i ?e ?d ?s0] =>
      destruct (pushSSE_spec i e d s0) as (st1 & -> & Hr & _ & Hb & _) end.
    cbn [fst]. cbn in Hr, Hb.
    rewrite (attach_hit res k (JObj fs)) by (rewrite Hr; apply lookup_insert_eq).
    rewrite res_write_open by by rewrite Hb. cbn [fst].
    rewrite delivered_write. by rewrite decide_True.
  - rewrite on_complete_eq. cbn [fst complete_frame data].
    by rewrite bare_clip_song.
Qed.

Lemma late_attach_shows_nothing_witness :
  let st1 := (callback (webhook (JStr "j") (JArr [song])) initial).1 in
  exists f,
    delivered (attach 2 "j" st1).1 2 = delivered st1 2 ++ [f] /\
    (on_complete (on_wire (data f)) (waiting [])).1 =
      stop_generating (close_stream (clear_timer (waiting []))).
Proof.
  apply (late_attach_shows_nothing (webhook (JStr "j") (JArr [song]))
           [("id", JStr "c1"); ("title", JStr "Song");
            ("stream_audio_url", JStr "http://x/y")] [] "j" 2 initial
           (waiting []));
    try reflexivity; discriminate.
Defined.

(** The same holds for the frame that the reconciliation pushes to a
    waiting response: it carries the bare clip, and for a clip object
    without a [data] entry the listener shows nothing and ends the wait. *)
Theorem reconciliation_push_shows_nothing st k fs conn found pending c :
  pending <> [] ->
  member (JObj fs) "status" = Some (JStr "complete") ->
  clip_id (JObj fs) = Some (JStr k) -> k <> "" ->
  subscribers st !! k = Some [conn] -> conn ∉ broken st ->
  has_key "data" fs = false ->
  let r := status_end found pending (AxiosResolved (JArr [JObj fs])) st in
  exists f,
    delivered r.1 conn = delivered st conn ++ [f] /\
    (on_complete (on_wire (data f)) c).1 =
      stop_generating (close_stream (clear_timer c)).
Proof.
  intros Hp Hs Hid Hk Hsubs Hopen Hdata. cbn zeta.
  exists (complete_frame (JObj fs)). split.
  - assert (truthy (JStr k) = true) as Ht.
    { cbn. apply negb_true_iff. by apply String.eqb_neq. }
    unfold status_end. destruct pending as [|p pending]; [done|].
    cbn [List.length Nat.ltb Nat.leb]. unfold try_, status_query.
    cbn [clip_list forEach fst].
    erewrite bind_ret; [|by eapply backfill_reported].
    cbn [ret fst snd].
    destruct (resolve_spec (JStr k) (JObj fs) (JObj fs) st)
      as (st' & -> & _ & _ & _ & Hd).
    cbn [fst]. rewrite Hd. cbn [subs_get]. rewrite Hsubs. cbn.
    destruct (decide (conn ∈ broken st)); [done|].
    unfold registrations. cbn. by destruct (Nat.eq_dec conn conn).
  - rewrite on_complete_eq. cbn [fst complete_frame data].
    by rewrite bare_clip_song.
Qed.

Lemma reconciliation_push_shows_nothing_witness :
  let st := (events (Some "b") 5 resolved_a).1 in
  let r := status_end [clip_of "a" "A"] ["b"]
             (AxiosResolved (JArr [clip_of "b" "B"])) st in
  exists f,
    delivered r.1 5 = delivered st 5 ++ [f] /\
    (on_complete (on_wire (data f)) (waiting [])).1 =
      stop_generating (close_stream (clear_timer (waiting []))).
Proof.
  apply (reconciliation_push_shows_nothing (events (Some "b") 5 resolved_a).1
           "b" [("id", JStr "b"); ("status", JStr "complete");
                ("title", JStr "B")] 5 [clip_of "a" "A"] ["b"] (waiting []));
    try reflexivity; try discriminate.
Defined.

(** ** [GET /status] as the poll sees it *)

(** When the reply of [GET /status] has a non-empty [found] whose records
    can all be shown, the poll that gets this reply on its first turn ends
    at once: one song line per record of [found], one request, no sleep,
    whatever [pending] holds. *)
Theorem poll_shows_what_status_found q api st answers c :
  parse_ids q <> [] ->
  let found :=
    known_records (resultsStore st) (parse_ids q) ++
    match unresolved (resultsStore st) (parse_ids q) with
    | [] => []
    | _ => newly_found api
    end in
  let pending := unresolved (resultsStore st) (parse_ids q) in
  (status q api st).2 = SendJson 200 (status_body found pending) /\
  (answers 0 = fetched_of 200 (status_body found pending) ->
   found <> [] -> forallb showable (List.map wire_item found) = true ->
   let c' := (fallbackPoll answers c).1 in
   messages c' = messages c ++ (poll_message <$> List.map wire_item found) /\
   isGeneratingMusic c' = false /\
   requests c' = requests c + 1 /\ slept c' = slept c).
Proof.
  intros Hne. cbn zeta. split; [by apply status_reply_eq|].
  intros Ha Hfound Hshow. unfold fallbackPoll.
  destruct (poll_loop_success 0 30 0 answers c) as (-> & -> & -> & ->).
  - lia.
  - intros j Hj. lia.
  - cbn [Nat.add]. rewrite Ha. unfold succeeds.
    rewrite found_clips_status_body.
    destruct (known_records _ _ ++ _) as [|x l]; [done|]. exact Hshow.
  - cbn [Nat.add stray_messages app]. rewrite Ha, found_clips_status_body.
    repeat split; lia.
Qed.

Lemma poll_shows_what_status_found_witness :
  let q := Some "a,b" in
  let answers := fun _ : nat =>
    fetched_of 200 (status_body [clip_of "a" "A"] ["b"]) in
  let found :=
    known_records (resultsStore resolved_a) (parse_ids q) ++
    match unresolved (resultsStore resolved_a) (parse_ids q) with
    | [] => []
    | _ => newly_found AxiosRejected
    end in
  let pending := unresolved (resultsStore resolved_a) (parse_ids q) in
  (status q AxiosRejected resolved_a).2 = SendJson 200 (status_body found pending) /\
  (answers 0 = fetched_of 200 (status_body found pending) ->
   found <> [] -> forallb showable (List.map wire_item found) = true ->
   let c' := (fallbackPoll answers (waiting [])).1 in
   messages c' =
     messages (waiting []) ++ (poll_message <$> List.map wire_item found) /\
   isGeneratingMusic c' = false /\
   requests c' = requests (waiting []) + 1 /\ slept c' = slept (waiting [])).
Proof.
  apply (poll_shows_what_status_found (Some "a,b") AxiosRejected resolved_a
           (fun _ : nat => fetched_of 200 (status_body [clip_of "a" "A"] ["b"]))
           (waiting [])).
  vm_compute. discriminate.
Defined.

Lemma null_not_showable l : JNull ∈ l -> forallb showable l = false.
Proof.
  induction l as [|x l IH]; [by intros ?%elem_of_nil|].
  intros [<-|Hin]%elem_of_cons; [done|].
  cbn. rewrite (IH Hin). apply andb_false_r.
Qed.

(** An id that a webhook with an empty clip array resolved (its stored
    record is [undefined]) can never end the poll: every reply of
    [GET /status] that names it carries [null] in [found], on which the
    turn fails. *)
Theorem empty_record_never_ends_poll q api st k :
  resultsStore st !! k = Some JUndefined -> k ∈ parse_ids q ->
  exists body,
    (status q api st).2 = SendJson 200 body /\
    succeeds (fetched_of 200 body) = false.
Proof.
  intros Hk Hin.
  assert (parse_ids q <> []) as Hne.
  { intros Hnil. rewrite Hnil in Hin. by apply elem_of_nil in Hin. }
  eexists. split; [by apply status_reply_eq|].
  unfold succeeds. rewrite found_clips_status_body.
  match goal with |- context [List.map wire_item ?F] =>
    assert (JNull ∈ List.map wire_item F) as Hnull end.
  { apply list_elem_of_In, List.in_map_iff. exists JUndefined.
    split; [done|]. apply list_elem_of_In, elem_of_app. left.
    apply list_elem_of_omap. eauto. }
  destruct (List.map wire_item _) as [|x l]; [done|].
  by apply null_not_showable.
Qed.

Lemma empty_record_never_ends_poll_witness :
  exists body,
    (status (Some "j") AxiosRejected
       (callback (webhook (JStr "j") (JArr [])) initial).1).2
      = SendJson 200 body /\
    succeeds (fetched_of 200 body) = false.
Proof.
  apply (empty_record_never_ends_poll (Some "j") AxiosRejected
           (callback (webhook (JStr "j") (JArr [])) initial).1 "j").
  - reflexivity.
  - vm_compute. apply elem_of_cons. by left.
Defined.

(** * The chat box *)




